(** * SecureNotes: the script execution service of [server/routes.ts]

    The server side of the repository is one file, [server/routes.ts]:
    the engine [executePython], which runs a script in a [python3] child
    process under a deadline and with capped output buffers, and the
    handler of [POST /api/execute] that validates the request and renders
    the engine's result.

    The engine is callback driven.  Its closure variables ([startTime],
    [stdout], [stderr], [process], [timeout] and the promise being
    resolved) form the state of one invocation; every callback is a
    function on that state, and the Node event loop, which runs one
    callback at a time, is a fold over the list of events it delivers. *)

From Stdlib Require Import ZArith NArith List Ascii String DecimalString.
From Stdlib Require Import QArith.
From stdpp Require Import base option list gmap.

Set Warnings "-register-all".
Local Open Scope Z_scope.

(** ** JavaScript strings

    A JavaScript string is a sequence of UTF-16 code units; [length],
    [slice] and [trim] all work on code units. *)

Abbreviation code_unit := N (only parsing).
Abbreviation jsstring := (list N) (only parsing).

Module JS.

(** A source literal made of ASCII characters. *)
Definition lit (s : string) : jsstring :=
  map N_of_ascii (list_ascii_of_string s).

(** [WhiteSpace] and [LineTerminator] of ECMAScript, the code points
    that [String.prototype.trim] strips: TAB, LF, VT, FF, CR, SP, NBSP,
    U+1680, U+2000..U+200A, LS, PS, U+202F, U+205F, U+3000 and the BOM. *)
Definition is_white_space (c : code_unit) : bool :=
  (existsb (N.eqb c)
     [9; 10; 11; 12; 13; 32; 160; 5760; 8232; 8233; 8239; 8287; 12288; 65279]%N
   || ((8192 <=? c)%N && (c <=? 8202)%N))%bool.

Fixpoint trimStart (s : jsstring) : jsstring :=
  match s with
  | [] => []
  | c :: s' => if is_white_space c then trimStart s' else s
  end.

Definition trimEnd (s : jsstring) : jsstring := rev (trimStart (rev s)).

(** [s.trim()] *)
Definition trim (s : jsstring) : jsstring := trimEnd (trimStart s).

(** [s.slice(0, n)] for [0 <= n] *)
Definition slice0 (s : jsstring) (n : Z) : jsstring := take (Z.to_nat n) s.

(** [s.length] *)
Definition strlen (s : jsstring) : Z := Z.of_nat (length s).

(** [a || b] on strings: the empty string is the only falsy one. *)
Definition or_else {A} (s : jsstring) (some : jsstring -> A) (none : A) : A :=
  match s with
  | [] => none
  | _ :: _ => some s
  end.

(** [String(n)] for an integral number [n]: decimal digits, with a
    leading minus sign for a negative one. *)
Definition Number_toString (n : Z) : jsstring :=
  lit (NilZero.string_of_int (Z.to_int n)).

(** Values a parsed JSON body can hold in a field, and [undefined] for a
    field that is not there. *)
Inductive number :=
| Finite (q : Q)
| Infinite (negative : bool)
| NaN.

Inductive value :=
| Undefined
| Null
| Bool (b : bool)
| Number (n : number)
| String (s : jsstring)
| Array (items : list value)
| Object (fields : list (jsstring * value)).

(** [ToBoolean] *)
Definition truthy (v : value) : bool :=
  match v with
  | Undefined | Null => false
  | Bool b => b
  | Number (Finite q) => negb (Qeq_bool q 0)
  | Number (Infinite _) => true
  | Number NaN => false
  | String s => match s with [] => false | _ :: _ => true end
  | Array _ | Object _ => true
  end.

Inductive type_tag :=
| t_undefined | t_object | t_boolean | t_number | t_string.

(** [typeof v] *)
Definition typeof (v : value) : type_tag :=
  match v with
  | Undefined => t_undefined
  | Null => t_object
  | Bool _ => t_boolean
  | Number _ => t_number
  | String _ => t_string
  | Array _ | Object _ => t_object
  end.

Definition type_tag_eqb (a b : type_tag) : bool :=
  match a, b with
  | t_undefined, t_undefined | t_object, t_object | t_boolean, t_boolean
  | t_number, t_number | t_string, t_string => true
  | _, _ => false
  end.

End JS.

(** ** The engine: [executePython]

    Constants of [server/routes.ts]. *)

Definition EXECUTION_TIMEOUT : Z := 30000.
Definition MAX_OUTPUT_LENGTH : Z := 10000.

(** The literal ["\n... (output truncated)"]. *)
Definition truncation_marker : jsstring :=
  10%N :: JS.lit "... (output truncated)".

Definition PYTHONIOENCODING : jsstring := JS.lit "PYTHONIOENCODING".

(** [interface ExecuteResponse]; an optional field that is absent or
    [undefined] is [None] (JSON rendering leaves both out). *)
Record ExecuteResponse := {
  success : bool;
  output : option jsstring;
  error : option jsstring;
  executionTime : option Z
}.

(** What [spawn] was called with. *)
Record spawn_options := {
  opt_timeout : Z;
  opt_env : gmap jsstring jsstring
}.

Record spawn_call := {
  command : jsstring;
  args : list jsstring;
  options : spawn_options
}.

Inductive signal := SIGTERM.

(** A [setTimeout] handle: still armed, run, or cancelled by
    [clearTimeout]. *)
Inductive timer := Pending | Fired | Cleared.

(** The closure variables of one call of [executePython].  [promise] is
    the promise under construction: [None] while it is pending.  [signals]
    lists what the callbacks of this file have sent to the child with
    [process.kill], oldest first.  The last two fields are the runtime's
    side of the child: [spawn_timeout] is the timer that [spawn] arms for
    its option [timeout], and [delivered] lists every signal sent to the
    child, by that timer and by [process.kill], oldest first. *)
Record invocation := {
  startTime : Z;
  stdout : jsstring;
  stderr : jsstring;
  process : spawn_call;
  signals : list signal;
  timeout : timer;
  promise : option ExecuteResponse;
  spawn_timeout : timer;
  delivered : list signal
}.

(** What the child process and the runtime deliver.  The [data] of a
    data event is [data.toString()], the text Node decodes from that one
    chunk by itself.  [Close code] carries [null] ([None]) for a child
    ended by a signal.  [TimerFire elapsed] is the deadline timer of
    [executePython] coming up for its callback, and [SpawnTimeout elapsed]
    the timer of the spawn option [timeout]; [elapsed] is the time on the
    event loop's clock, in milliseconds, since the timer was armed. *)
Inductive event :=
| StdoutData (data : jsstring)
| StderrData (data : jsstring)
| Close (code : option Z)
| Error (message : jsstring)
| TimerFire (elapsed : Z)
| SpawnTimeout (elapsed : Z).

(** An event together with what [Date.now()] reads while its callback runs. *)
Abbreviation timed_event := (Z * event)%type (only parsing).

Section Engine.

(** [globalThis.process.env] of the server process. *)
Variable penv : gmap jsstring jsstring.

(** [resolve(r)]: settles a pending promise, does nothing on a settled one. *)
Definition resolve (r : ExecuteResponse) (inv : invocation) : invocation :=
  match promise inv with
  | Some _ => inv
  | None =>
      {| startTime := startTime inv; stdout := stdout inv; stderr := stderr inv;
         process := process inv; signals := signals inv; timeout := timeout inv;
         promise := Some r; spawn_timeout := spawn_timeout inv;
         delivered := delivered inv |}
  end.

(** [clearTimeout(timeout)]: cancels an armed timer only. *)
Definition clearTimeout (inv : invocation) : invocation :=
  {| startTime := startTime inv; stdout := stdout inv; stderr := stderr inv;
     process := process inv; signals := signals inv;
     timeout := match timeout inv with Pending => Cleared | t => t end;
     promise := promise inv; spawn_timeout := spawn_timeout inv;
     delivered := delivered inv |}.

(** [process.kill(sig)] *)
Definition kill (sig : signal) (inv : invocation) : invocation :=
  {| startTime := startTime inv; stdout := stdout inv; stderr := stderr inv;
     process := process inv; signals := signals inv ++ [sig];
     timeout := timeout inv; promise := promise inv;
     spawn_timeout := spawn_timeout inv; delivered := delivered inv ++ [sig] |}.

(** The body shared by both [data] listeners:
    [buf += data; if (buf.length > MAX_OUTPUT_LENGTH) buf = buf.slice(0, MAX_OUTPUT_LENGTH) + marker]. *)
Definition append_capped (buf data : jsstring) : jsstring :=
  let buf' := buf ++ data in
  if JS.strlen buf' >? MAX_OUTPUT_LENGTH
  then JS.slice0 buf' MAX_OUTPUT_LENGTH ++ truncation_marker
  else buf'.

Definition on_stdout_data (data : jsstring) (inv : invocation) : invocation :=
  {| startTime := startTime inv; stdout := append_capped (stdout inv) data;
     stderr := stderr inv; process := process inv; signals := signals inv;
     timeout := timeout inv; promise := promise inv;
     spawn_timeout := spawn_timeout inv; delivered := delivered inv |}.

Definition on_stderr_data (data : jsstring) (inv : invocation) : invocation :=
  {| startTime := startTime inv; stdout := stdout inv;
     stderr := append_capped (stderr inv) data; process := process inv;
     signals := signals inv; timeout := timeout inv; promise := promise inv;
     spawn_timeout := spawn_timeout inv; delivered := delivered inv |}.

(** The [`${code}`] of the exit message: [null] prints as ["null"]. *)
Definition code_toString (code : option Z) : jsstring :=
  match code with
  | Some c => JS.Number_toString c
  | None => JS.lit "null"
  end.

(** [code === 0] *)
Definition is_zero (code : option Z) : bool :=
  match code with
  | Some c => c =? 0
  | None => false
  end.

(** The [close] listener. *)
Definition on_close (now : Z) (code : option Z) (inv : invocation) : invocation :=
  let inv := clearTimeout inv in
  let executionTime := now - startTime inv in
  if is_zero code then
    resolve {| success := true;
               output := Some (JS.or_else (JS.trim (stdout inv)) id (JS.lit "(no output)"));
               error := None;
               executionTime := Some executionTime |} inv
  else
    resolve {| success := false;
               output := JS.or_else (JS.trim (stdout inv)) Some None;
               error := Some (JS.or_else (JS.trim (stderr inv)) id
                                (JS.lit "Process exited with code " ++ code_toString code));
               executionTime := Some executionTime |} inv.

(** The [error] listener; [message] is [err.message]. *)
Definition on_error (now : Z) (message : jsstring) (inv : invocation) : invocation :=
  let inv := clearTimeout inv in
  resolve {| success := false;
             output := None;
             error := Some (JS.lit "Failed to execute: " ++ message);
             executionTime := Some (now - startTime inv) |} inv.

(** The [setTimeout] callback.  [EXECUTION_TIMEOUT / 1000] is an exact
    quotient (see [timeout_seconds_exact]), so the number printed is the
    integer [30]. *)
Definition on_timeout (now : Z) (inv : invocation) : invocation :=
  let inv := kill SIGTERM inv in
  resolve {| success := false;
             output := None;
             error := Some (JS.lit "Execution timed out after "
                              ++ JS.Number_toString (EXECUTION_TIMEOUT / 1000)
                              ++ JS.lit " seconds");
             executionTime := Some (now - startTime inv) |} inv.

(** The timer has run: the handle is no longer armed. *)
Definition expire (inv : invocation) : invocation :=
  {| startTime := startTime inv; stdout := stdout inv; stderr := stderr inv;
     process := process inv; signals := signals inv; timeout := Fired;
     promise := promise inv; spawn_timeout := spawn_timeout inv;
     delivered := delivered inv |}.

(** The callback of the timer that [spawn] arms for its option
    [timeout]: it kills the child with the option [killSignal], which is
    not given here and so is [SIGTERM]. *)
Definition spawn_timeout_kill (inv : invocation) : invocation :=
  {| startTime := startTime inv; stdout := stdout inv; stderr := stderr inv;
     process := process inv; signals := signals inv; timeout := timeout inv;
     promise := promise inv; spawn_timeout := Fired;
     delivered := delivered inv ++ [SIGTERM] |}.

(** [spawn] cancels that timer when the child exits, which is before
    [close] is emitted. *)
Definition child_exited (inv : invocation) : invocation :=
  {| startTime := startTime inv; stdout := stdout inv; stderr := stderr inv;
     process := process inv; signals := signals inv; timeout := timeout inv;
     promise := promise inv;
     spawn_timeout := match spawn_timeout inv with Pending => Cleared | t => t end;
     delivered := delivered inv |}.

(** One turn of the event loop.  The runtime runs a timer callback only
    for a handle that is still armed, not before the delay the timer was
    set with has passed on the loop's clock, and at most once. *)
Definition dispatch (te : timed_event) (inv : invocation) : invocation :=
  let (now, ev) := te in
  match ev with
  | StdoutData data => on_stdout_data data inv
  | StderrData data => on_stderr_data data inv
  | Close code => on_close now code (child_exited inv)
  | Error message => on_error now message inv
  | TimerFire elapsed =>
      match timeout inv with
      | Pending =>
          if EXECUTION_TIMEOUT <=? elapsed then on_timeout now (expire inv)
          else inv
      | Fired | Cleared => inv
      end
  | SpawnTimeout elapsed =>
      match spawn_timeout inv with
      | Pending =>
          if opt_timeout (options (process inv)) <=? elapsed
          then spawn_timeout_kill inv
          else inv
      | Fired | Cleared => inv
      end
  end.

Definition run (inv : invocation) (trace : list timed_event) : invocation :=
  fold_left (fun inv te => dispatch te inv) trace inv.

(** The promise executor once [spawn] has returned a child: the clock
    has been read, the child is there with Node's timer for the option
    [timeout] armed, the deadline timer is armed and the listeners are
    attached.  [start] is what [Date.now()] reads at entry. *)
Definition started (script : jsstring) (start : Z) : invocation :=
  {| startTime := start;
     stdout := [];
     stderr := [];
     process :=
       {| command := JS.lit "python3";
          args := [JS.lit "-c"; script];
          options := {| opt_timeout := EXECUTION_TIMEOUT;
                        opt_env := <[PYTHONIOENCODING := JS.lit "utf-8"]> penv |} |};
     signals := [];
     timeout := Pending;
     promise := None;
     spawn_timeout := Pending;
     delivered := [] |}.

(** [spawn] throws, before there is a child, when its file or one of its
    arguments holds U+0000 ([ERR_INVALID_ARG_VALUE]), and when the system
    refuses the start with an error that Node does not report through the
    [error] event ([E2BIG] for a script too long for an argument,
    [ENOMEM], ...); [refused] says that the system does so. *)
Definition has_nul (s : jsstring) : bool := existsb (N.eqb 0) s.

Definition spawn_throws (call : spawn_call) (refused : bool) : bool :=
  (has_nul (command call) || existsb has_nul (args call) || refused)%bool.

(** What a call of [executePython] has given when its synchronous part
    is over: a promise rejected with what [spawn] threw (the executor has
    no [try]; no timer is armed and no listener attached by then), or an
    invocation under way. *)
Inductive call :=
| Rejected
| Started (inv : invocation).

Definition executePython (script : jsstring) (start : Z) (refused : bool) : call :=
  if spawn_throws (process (started script start)) refused then Rejected
  else Started (started script start).

(** The invocation of a call whose [spawn] has returned a child, after
    the event loop has delivered [trace]. *)
Definition execution (script : jsstring) (start : Z) (trace : list timed_event)
  : invocation :=
  run (started script start) trace.

End Engine.

Arguments append_capped : simpl never.

(** ** The handler of [POST /api/execute] *)

(** A response: its status and, when the body is an [ExecuteResponse]
    rendered as JSON, that body. *)
Record http_response := {
  status : Z;
  body : option ExecuteResponse
}.

(** What serving one request has done: the child processes started, and
    the response sent ([None] while the handler still awaits the engine). *)
Record handler_outcome := {
  spawned : list spawn_call;
  response : option http_response
}.

(** [script] at the type the guard has established ([typeof script] is
    ["string"] where this is used). *)
Definition as_string (v : JS.value) : jsstring :=
  match v with
  | JS.String s => s
  | _ => []
  end.

(** The handler: [script] is [req.body.script] of a parsed body
    ([Undefined] when the body has no such field); [start], [refused] and
    [trace] are the clock reading, the system's answer to [spawn] and the
    events the engine's invocation meets.  [res.json] without [res.status]
    sends status 200.  When [executePython] rejects, the [await] throws
    and so the handler's own promise rejects: the framework answers with
    its error response, status 500, which has no [ExecuteResponse] in it.
    The two [console.log] lines write to the server log only and are left
    out. *)
Definition post_execute (penv : gmap jsstring jsstring) (script : JS.value)
    (start : Z) (refused : bool) (trace : list timed_event) : handler_outcome :=
  if (negb (JS.truthy script)
      || negb (JS.type_tag_eqb (JS.typeof script) JS.t_string))%bool
  then
    {| spawned := [];
       response :=
         Some {| status := 400;
                 body := Some {| success := false;
                                 output := None;
                                 error := Some (JS.lit "Script is required");
                                 executionTime := None |} |} |}
  else
    match executePython penv (as_string script) start refused with
    | Rejected => {| spawned := []; response := Some {| status := 500; body := None |} |}
    | Started inv =>
        {| spawned := [process inv];
           response :=
             match promise (run inv trace) with
             | Some result => Some {| status := 200; body := Some result |}
             | None => None
             end |}
    end.

(** ** Vocabulary of the statements *)

(** The text of the data events of one stream (each is the text decoded
    from one chunk by itself), joined in order of arrival. *)
Definition stdout_chunk (te : timed_event) : jsstring :=
  match snd te with
  | StdoutData data => data
  | _ => []
  end.

Definition stderr_chunk (te : timed_event) : jsstring :=
  match snd te with
  | StderrData data => data
  | _ => []
  end.

Definition stdout_written (trace : list timed_event) : jsstring :=
  concat (map stdout_chunk trace).

Definition stderr_written (trace : list timed_event) : jsstring :=
  concat (map stderr_chunk trace).

(** What a buffer holds after a stream has written [written] in all. *)
Definition capped (written : jsstring) : jsstring :=
  if JS.strlen written >? MAX_OUTPUT_LENGTH
  then JS.slice0 written MAX_OUTPUT_LENGTH ++ truncation_marker
  else written.

Arguments capped : simpl never.

(** The promise is pending exactly while the timer is armed. *)
Definition timer_tracks_promise (inv : invocation) : Prop :=
  promise inv = None <-> timeout inv = Pending.

(** Nothing is sent to the child while the timer is armed. *)
Definition unsignalled_while_armed (inv : invocation) : Prop :=
  timeout inv = Pending -> signals inv = [].

(** The shape of an engine result: [error] is there exactly on failure,
    and [executionTime] is there and is the reading [now] of the clock
    when the call was settled less the reading [start] at entry. *)
Definition well_formed (start now : Z) (r : ExecuteResponse) : Prop :=
  (success r = true <-> error r = None)
  /\ executionTime r = Some (now - start).

(** The requests the handler is to accept: [script] is there, is text and
    is not empty. *)
Definition acceptable (script : JS.value) : bool :=
  match script with
  | JS.String (_ :: _) => true
  | _ => false
  end.

(** Sample outputs: one more [a] than the cap, and a line of
    [MAX_OUTPUT_LENGTH] spaces as [print(' ' * 10000)] writes it. *)
Definition long_text : jsstring :=
  repeat 97%N (Z.to_nat (MAX_OUTPUT_LENGTH + 1)).

Definition blank_line : jsstring :=
  repeat 32%N (Z.to_nat MAX_OUTPUT_LENGTH) ++ [10%N].

(** An event whose callback calls [resolve]: for the deadline timer,
    one that comes when its delay has passed. *)
Definition settles (ev : event) : bool :=
  match ev with
  | StdoutData _ | StderrData _ | SpawnTimeout _ => false
  | Close _ | Error _ => true
  | TimerFire elapsed => EXECUTION_TIMEOUT <=? elapsed
  end.

(** The buffer length once a stream has been cut. *)
Definition truncated_length : Z :=
  MAX_OUTPUT_LENGTH + JS.strlen truncation_marker.

(** A string that begins, or ends, with something other than white space. *)
Definition starts_solid (s : jsstring) : Prop :=
  match s with
  | [] => False
  | c :: _ => JS.is_white_space c = false
  end.

Definition ends_solid (s : jsstring) : Prop := starts_solid (rev s).



(** White space only. *)
Definition blank (s : jsstring) : Prop :=
  Forall (fun c => JS.is_white_space c = true) s.

(** [t] is [s] without the white space at its two ends. *)
Definition trimmed_of (s t : jsstring) : Prop :=
  (exists before after, s = before ++ t ++ after /\ blank before /\ blank after)
  /\ (t = [] \/ (starts_solid t /\ ends_solid t)).

(** ** Storage keys ([lib/storage] and the passwords screen)

    [currentUserId] is a module variable of [lib/storage], [null] until a
    user is set; the key functions read it, here as a parameter. *)

Module Keys.

Definition USER_KEY_PREFIX : jsstring := JS.lit "@user:".
Definition NOTES_SUFFIX : jsstring := JS.lit ":notes".
Definition SETTINGS_SUFFIX : jsstring := JS.lit ":settings".
Definition CURRENT_USER_KEY : jsstring := JS.lit "@auth:current_user_id".
Definition PASSWORD_PREFIX : jsstring := JS.lit "pwd_".

(** [!currentUserId]: [null] and the empty string are falsy. *)
Definition no_user (currentUserId : option jsstring) : bool :=
  match currentUserId with
  | None | Some [] => true
  | Some (_ :: _) => false
  end.

(** A string or [null] inside a template literal. *)
Definition text (s : option jsstring) : jsstring :=
  match s with
  | Some s => s
  | None => JS.lit "null"
  end.

Definition getNotesKey (currentUserId : option jsstring) : jsstring :=
  if no_user currentUserId then JS.lit "@quicknotes:notes"
  else USER_KEY_PREFIX ++ text currentUserId ++ NOTES_SUFFIX.

Definition getSettingsKey (currentUserId : option jsstring) : jsstring :=
  if no_user currentUserId then JS.lit "@quicknotes:settings"
  else USER_KEY_PREFIX ++ text currentUserId ++ SETTINGS_SUFFIX.

(** Of the passwords screen; [userId] is [getCurrentUserId()]. *)
Definition getPasswordIndexKey (userId : option jsstring) : jsstring :=
  if no_user userId then JS.lit "@passwords:index"
  else JS.lit "@user:" ++ text userId ++ JS.lit ":passwords:index".

Definition getPasswordSecretKey (userId : option jsstring) (id : jsstring)
  : jsstring :=
  if no_user userId then PASSWORD_PREFIX ++ id
  else PASSWORD_PREFIX ++ text userId ++ JS.lit "_" ++ id.

End Keys.

(** ** [extractYouTubeId] (note editor)

    The two patterns have no flags: they work on UTF-16 code units, and
    [^] and [$] anchor at the ends of the input. *)

Module YouTube.

(** The class [[a-zA-Z0-9_-]]. *)
Definition is_id_char (c : code_unit) : bool :=
  (((97 <=? c) && (c <=? 122)) || ((65 <=? c) && (c <=? 90))
   || ((48 <=? c) && (c <=? 57)) || (c =? 95) || (c =? 45))%N%bool.

(** A literal at the head of [s]: what follows it. *)
Fixpoint strip_prefix (p s : jsstring) : option jsstring :=
  match p, s with
  | [], _ => Some s
  | _ :: _, [] => None
  | a :: p', b :: s' => if (a =? b)%N then strip_prefix p' s' else None
  end.

(** The group [([a-zA-Z0-9_-]{11})] at the head of [s]. *)
Definition take_id (s : jsstring) : option jsstring :=
  if ((length (take 11 s) =? 11)%nat && forallb is_id_char (take 11 s))%bool
  then Some (take 11 s)
  else None.

(** The alternatives of the first pattern, in the order they are tried. *)
Definition alternatives : list jsstring :=
  [JS.lit "youtube.com/watch?v="; JS.lit "youtu.be/"; JS.lit "youtube.com/embed/"].

(** The first pattern at the head of [s]: the first alternative that is
    followed by an id gives the match. *)
Fixpoint match_here (alts : list jsstring) (s : jsstring) : option jsstring :=
  match alts with
  | [] => None
  | p :: alts' =>
      match strip_prefix p s with
      | Some rest =>
          match take_id rest with
          | Some id => Some id
          | None => match_here alts' s
          end
      | None => match_here alts' s
      end
  end.

(** [url.match(pattern)] for the first pattern, which is not anchored:
    the leftmost position where it matches; the result is group 1. *)
Fixpoint search (s : jsstring) : option jsstring :=
  match match_here alternatives s with
  | Some id => Some id
  | None =>
      match s with
      | [] => None
      | _ :: s' => search s'
      end
  end.

(** The second pattern, [/^([a-zA-Z0-9_-]{11})$/]. *)
Definition whole (s : jsstring) : option jsstring :=
  if ((length s =? 11)%nat && forallb is_id_char s)%bool then Some s else None.

Definition extractYouTubeId (url : jsstring) : option jsstring :=
  match url with
  | [] => None
  | _ :: _ =>
      match search url with
      | Some id => Some id
      | None => whole url
      end
  end.

End YouTube.

(** ** Notes in local storage ([lib/storage])

    The module keeps the notes of the current user as one JSON array
    under that user's notes key of the device's [AsyncStorage].  Every
    function of the module is [async]; each is modelled as run to its end
    with no other call interleaved between its [await]s. *)

Module Storage.

Record Note := {
  id : jsstring;
  title : jsstring;
  content : jsstring;
  isStarred : bool;
  createdAt : jsstring;
  updatedAt : jsstring;
  youtubeUrl : option jsstring;
  executionStatus : option jsstring;
  executionOutput : option jsstring;
  executionError : option jsstring;
  executedAt : option jsstring
}.

(** [Partial<Omit<Note, "id" | "createdAt">>].  A field is [None] when
    the object does not have the key.  For the optional fields of [Note]
    the key can be there with the value [undefined] ([Some None]), which
    the spread copies like any other value; for the required ones a key
    that is there has a value. *)
Record NoteUpdates := {
  new_title : option jsstring;
  new_content : option jsstring;
  new_isStarred : option bool;
  new_updatedAt : option jsstring;
  new_youtubeUrl : option (option jsstring);
  new_executionStatus : option (option jsstring);
  new_executionOutput : option (option jsstring);
  new_executionError : option (option jsstring);
  new_executedAt : option (option jsstring)
}.

(** The device's [AsyncStorage]: the stored items, and whether the
    storage is out of order, in which case every operation rejects. *)
Record device := {
  items : gmap jsstring jsstring;
  failing : bool
}.

(** [AsyncStorage.getItem(key)]: [None] when it rejects, [Some None] for
    the value [null] of a key that is not stored. *)
Definition getItem (key : jsstring) (d : device) : option (option jsstring) :=
  if failing d then None else Some (items d !! key).

Definition setItem (key value : jsstring) (d : device) : option device :=
  if failing d then None
  else Some {| items := <[key := value]> (items d); failing := false |}.

Definition removeItem (key : jsstring) (d : device) : option device :=
  if failing d then None
  else Some {| items := delete key (items d); failing := false |}.

(** The module variables [currentUserId] and [storageReady]. *)
Record variables := {
  currentUserId : option jsstring;
  storageReady : bool
}.

(** Their values when the module is loaded. *)
Definition loaded : variables :=
  {| currentUserId := None; storageReady := false |}.

Definition initStorage (v : variables) (d : device) : variables :=
  if storageReady v then v
  else
    match getItem Keys.CURRENT_USER_KEY d with
    | Some storedUserId =>
        {| currentUserId :=
             if Keys.no_user storedUserId then currentUserId v else storedUserId;
           storageReady := true |}
    | None => {| currentUserId := currentUserId v; storageReady := true |}
    end.

Definition setCurrentUserId (userId : option jsstring) (v : variables) (d : device)
  : variables * device :=
  let v' := {| currentUserId := userId; storageReady := storageReady v |} in
  let stored :=
    if Keys.no_user userId then removeItem Keys.CURRENT_USER_KEY d
    else setItem Keys.CURRENT_USER_KEY (Keys.text userId) d in
  match stored with
  | Some d' => (v', d')
  | None => (v', d)
  end.

Definition getCurrentUserId (v : variables) : option jsstring := currentUserId v.

Definition isStorageReady (v : variables) : bool := storageReady v.

Section Notes.

(** [JSON.parse] and [JSON.stringify] at the type the module uses them:
    [JSON_parse data] is [None] when [JSON.parse] throws.  Stored text
    that parses to something other than an array of notes is not covered:
    the source takes the result as [Note[]] unchecked. *)
Variable JSON_parse : jsstring -> option (list Note).
Variable JSON_stringify : list Note -> jsstring.

(** The value of [currentUserId] when the function is called. *)
Variable user : option jsstring.

Definition getNotes (d : device) : list Note :=
  match getItem (Keys.getNotesKey user) d with
  | Some (Some (c :: data)) =>
      match JSON_parse (c :: data) with
      | Some notes => notes
      | None => []
      end
  | Some (Some []) | Some None => []
  | None => []
  end.

Definition saveNotes (notes : list Note) (d : device) : device :=
  match setItem (Keys.getNotesKey user) (JSON_stringify notes) d with
  | Some d' => d'
  | None => d
  end.

(** [notes.find((note) => note.id === id) || null] *)
Definition getNote (i : jsstring) (d : device) : option Note :=
  snd <$> list_find (fun note => id note = i) (getNotes d).

(** [iso] is [new Date().toISOString()], [ms] is [Date.now()] and
    [random] is [Math.random().toString(36).substr(2, 9)], as read during
    the call; [starred] is [None] when the argument is left out. *)
Definition createNote (new_title new_content : jsstring) (starred : option bool)
    (url : option jsstring) (iso : jsstring) (ms : Z) (random : jsstring)
    (d : device) : Note * device :=
  let notes := getNotes d in
  let newNote :=
    {| id := JS.lit "note_" ++ JS.Number_toString ms ++ JS.lit "_" ++ random;
       title := new_title;
       content := new_content;
       isStarred := default false starred;
       createdAt := iso;
       updatedAt := iso;
       youtubeUrl := url;
       executionStatus := None;
       executionOutput := None;
       executionError := None;
       executedAt := None |} in
  (newNote, saveNotes (newNote :: notes) d).

(** [{ ...note, ...updates, updatedAt: iso }] *)
Definition updated (note : Note) (updates : NoteUpdates) (iso : jsstring) : Note :=
  {| id := id note;
     title := default (title note) (new_title updates);
     content := default (content note) (new_content updates);
     isStarred := default (isStarred note) (new_isStarred updates);
     createdAt := createdAt note;
     updatedAt := iso;
     youtubeUrl := default (youtubeUrl note) (new_youtubeUrl updates);
     executionStatus := default (executionStatus note) (new_executionStatus updates);
     executionOutput := default (executionOutput note) (new_executionOutput updates);
     executionError := default (executionError note) (new_executionError updates);
     executedAt := default (executedAt note) (new_executedAt updates) |}.

Definition updateNote (i : jsstring) (updates : NoteUpdates) (iso : jsstring)
    (d : device) : option Note * device :=
  let notes := getNotes d in
  match list_find (fun note => id note = i) notes with
  | None => (None, d)
  | Some (index, note) =>
      let note' := updated note updates iso in
      (Some note', saveNotes (<[index := note']> notes) d)
  end.

Definition deleteNote (i : jsstring) (d : device) : bool * device :=
  let notes := getNotes d in
  let filtered := filter (fun note => id note <> i) notes in
  if (length filtered =? length notes)%nat then (false, d)
  else (true, saveNotes filtered d).

(** [{ ...note, isStarred: !note.isStarred, updatedAt: iso }] *)
Definition starred_toggled (note : Note) (iso : jsstring) : Note :=
  {| id := id note;
     title := title note;
     content := content note;
     isStarred := negb (isStarred note);
     createdAt := createdAt note;
     updatedAt := iso;
     youtubeUrl := youtubeUrl note;
     executionStatus := executionStatus note;
     executionOutput := executionOutput note;
     executionError := executionError note;
     executedAt := executedAt note |}.

Definition toggleNoteStar (i : jsstring) (iso : jsstring) (d : device)
  : option Note * device :=
  let notes := getNotes d in
  match list_find (fun note => id note = i) notes with
  | None => (None, d)
  | Some (index, note) =>
      let note' := starred_toggled note iso in
      (Some note', saveNotes (<[index := note']> notes) d)
  end.

End Notes.

End Storage.

(** A codec with the two laws of [JSON.parse] and [JSON.stringify] that
    the statements about notes rely on (parsing what was written gives it
    back, and what is written is never the empty string), obtained from an
    enumeration of the lists of notes. *)

Module SampleJSON.

Definition fields (note : Storage.Note) :=
  (Storage.id note, Storage.title note, Storage.content note,
   Storage.isStarred note, Storage.createdAt note, Storage.updatedAt note,
   Storage.youtubeUrl note, Storage.executionStatus note,
   Storage.executionOutput note, Storage.executionError note,
   Storage.executedAt note).

Definition of_fields
    (t : jsstring * jsstring * jsstring * bool * jsstring * jsstring
         * option jsstring * option jsstring * option jsstring
         * option jsstring * option jsstring) : Storage.Note :=
  let '(i, t, c, s, ca, ua, y, es, eo, ee, ea) := t in
  {| Storage.id := i; Storage.title := t; Storage.content := c;
     Storage.isStarred := s; Storage.createdAt := ca; Storage.updatedAt := ua;
     Storage.youtubeUrl := y; Storage.executionStatus := es;
     Storage.executionOutput := eo; Storage.executionError := ee;
     Storage.executedAt := ea |}.

#[global] Instance Note_eq_dec : EqDecision Storage.Note.
Proof. solve_decision. Defined.

#[global] Instance Note_countable : Countable Storage.Note :=
  inj_countable' fields of_fields
    (fun note => match note with Storage.Build_Note _ _ _ _ _ _ _ _ _ _ _ => eq_refl end).

Definition stringify (notes : list Storage.Note) : jsstring :=
  [N.pos (encode notes)].

Definition parse (data : jsstring) : option (list Storage.Note) :=
  match data with
  | [N.pos p] => decode p
  | _ => None
  end.

End SampleJSON.

(** ** Settings in local storage ([lib/storage]) *)

Module SettingsStore.

(** [interface Settings]; the two numbers are finite, as every number
    that JSON text can hold is. *)
Record Settings := {
  displayName : jsstring;
  theme : jsstring;
  fontSize : Q;
  autoSave : bool;
  executionTimeout : Q
}.

(** [Partial<Settings>], and what [JSON.parse] gives for stored
    settings: each key is there with a value, or is not there. *)
Record PartialSettings := {
  with_displayName : option jsstring;
  with_theme : option jsstring;
  with_fontSize : option Q;
  with_autoSave : option bool;
  with_executionTimeout : option Q
}.

Definition defaultSettings : Settings :=
  {| displayName := JS.lit "My Notes";
     theme := JS.lit "system";
     fontSize := 16;
     autoSave := true;
     executionTimeout := 30 |}.

(** [{ ...base, ...changes }] *)
Definition spread (base : Settings) (changes : PartialSettings) : Settings :=
  {| displayName := default (displayName base) (with_displayName changes);
     theme := default (theme base) (with_theme changes);
     fontSize := default (fontSize base) (with_fontSize changes);
     autoSave := default (autoSave base) (with_autoSave changes);
     executionTimeout :=
       default (executionTimeout base) (with_executionTimeout changes) |}.

(** The object with every key of [s]. *)
Definition whole (s : Settings) : PartialSettings :=
  {| with_displayName := Some (displayName s);
     with_theme := Some (theme s);
     with_fontSize := Some (fontSize s);
     with_autoSave := Some (autoSave s);
     with_executionTimeout := Some (executionTimeout s) |}.

Section Settings.

(** [JSON.parse] ([None] when it throws) and [JSON.stringify] at the
    types they are used at here. *)
Variable JSON_parse : jsstring -> option PartialSettings.
Variable JSON_stringify : Settings -> jsstring.

(** The value of [currentUserId] when the function is called. *)
Variable user : option jsstring.

Definition getSettings (d : Storage.device) : Settings :=
  match Storage.getItem (Keys.getSettingsKey user) d with
  | Some (Some (c :: data)) =>
      match JSON_parse (c :: data) with
      | Some stored => spread defaultSettings stored
      | None => defaultSettings
      end
  | Some (Some []) | Some None => defaultSettings
  | None => defaultSettings
  end.

Definition saveSettings (settings : PartialSettings) (d : Storage.device)
  : Settings * Storage.device :=
  let current := getSettings d in
  let updated := spread current settings in
  match Storage.setItem (Keys.getSettingsKey user) (JSON_stringify updated) d with
  | Some d' => (updated, d')
  | None => (defaultSettings, d)
  end.

End Settings.

(** [AsyncStorage.multiRemove([getNotesKey(), getSettingsKey()])], with a
    rejection swallowed. *)
Definition clearAllData (user : option jsstring) (d : Storage.device)
  : Storage.device :=
  if Storage.failing d then d
  else {| Storage.items :=
            delete (Keys.getSettingsKey user)
              (delete (Keys.getNotesKey user) (Storage.items d));
          Storage.failing := false |}.

End SettingsStore.

(** A codec for settings with the two laws of JSON the statements rely
    on, from an enumeration of the settings. *)

Module SampleSettingsJSON.

Definition fields (s : SettingsStore.Settings) :=
  (SettingsStore.displayName s, SettingsStore.theme s,
   (Qnum (SettingsStore.fontSize s), Qden (SettingsStore.fontSize s)),
   SettingsStore.autoSave s,
   (Qnum (SettingsStore.executionTimeout s), Qden (SettingsStore.executionTimeout s))).

Definition of_fields
    (t : jsstring * jsstring * (Z * positive) * bool * (Z * positive))
  : SettingsStore.Settings :=
  let '(n, th, (fn, fd), a, (en, ed)) := t in
  {| SettingsStore.displayName := n; SettingsStore.theme := th;
     SettingsStore.fontSize := Qmake fn fd; SettingsStore.autoSave := a;
     SettingsStore.executionTimeout := Qmake en ed |}.

#[global] Instance Q_eq_dec : EqDecision Q.
Proof. solve_decision. Defined.

#[global] Instance Settings_eq_dec : EqDecision SettingsStore.Settings.
Proof. solve_decision. Defined.

#[global] Instance Settings_countable : Countable SettingsStore.Settings :=
  inj_countable' fields of_fields
    (fun s => match s with
              | SettingsStore.Build_Settings _ _ (Qmake _ _) _ (Qmake _ _) => eq_refl
              end).

Definition stringify (s : SettingsStore.Settings) : jsstring := [N.pos (encode s)].

Definition parse (data : jsstring) : option SettingsStore.PartialSettings :=
  match data with
  | [N.pos p] => SettingsStore.whole <$> decode p
  | _ => None
  end.

End SampleSettingsJSON.

(** Sample data for the statements about notes. *)

Module Sample.

Definition user : option jsstring := Some (JS.lit "guest-17").

Definition other : option jsstring := Some (JS.lit "guest-18").

Definition empty_device : Storage.device :=
  {| Storage.items := ∅; Storage.failing := false |}.

Definition broken_device : Storage.device :=
  {| Storage.items := ∅; Storage.failing := true |}.

Definition note : Storage.Note :=
  {| Storage.id := JS.lit "note_5_abc";
     Storage.title := JS.lit "Shopping";
     Storage.content := JS.lit "milk";
     Storage.isStarred := false;
     Storage.createdAt := JS.lit "2024-01-01T00:00:00.000Z";
     Storage.updatedAt := JS.lit "2024-01-01T00:00:00.000Z";
     Storage.youtubeUrl := Some (JS.lit "https://youtu.be/dQw4w9WgXcQ");
     Storage.executionStatus := None;
     Storage.executionOutput := None;
     Storage.executionError := None;
     Storage.executedAt := None |}.

(** The updates the note editor sends when the url field was emptied. *)
Definition updates : Storage.NoteUpdates :=
  {| Storage.new_title := Some (JS.lit "Groceries");
     Storage.new_content := Some (JS.lit "milk, eggs");
     Storage.new_isStarred := Some true;
     Storage.new_updatedAt := None;
     Storage.new_youtubeUrl := Some None;
     Storage.new_executionStatus := None;
     Storage.new_executionOutput := None;
     Storage.new_executionError := None;
     Storage.new_executedAt := None |}.

Definition device : Storage.device :=
  Storage.saveNotes SampleJSON.stringify user [note] empty_device.

(** The change the settings screen makes when the theme is switched. *)
Definition dark_theme : SettingsStore.PartialSettings :=
  {| SettingsStore.with_displayName := None;
     SettingsStore.with_theme := Some (JS.lit "dark");
     SettingsStore.with_fontSize := None;
     SettingsStore.with_autoSave := None;
     SettingsStore.with_executionTimeout := None |}.

End Sample.

Example lit_abc : JS.lit "abc" = [97; 98; 99]%N.
Proof. reflexivity. Qed.

Example trim_both_ends :
  JS.trim ([32; 10] ++ JS.lit "a b" ++ [9; 13; 10])%N = JS.lit "a b".
Proof. reflexivity. Qed.

Example trim_all_blank : JS.trim [32; 10; 9]%N = [].
Proof. reflexivity. Qed.

Example toString_30 : JS.Number_toString 30 = JS.lit "30".
Proof. reflexivity. Qed.

Example toString_neg : JS.Number_toString (-15) = JS.lit "-15".
Proof. reflexivity. Qed.

Example toString_0 : JS.Number_toString 0 = JS.lit "0".
Proof. reflexivity. Qed.


Example marker_length : JS.strlen truncation_marker = 23.
Proof. reflexivity. Qed.

Example truncated_length_value : truncated_length = 10023.
Proof. reflexivity. Qed.

(** [EXECUTION_TIMEOUT / 1000] has no fractional part. *)
Lemma timeout_seconds_exact :
  EXECUTION_TIMEOUT = 1000 * (EXECUTION_TIMEOUT / 1000).
Proof. reflexivity. Qed.

(** ** Trimming *)

Lemma trimStart_length (s : jsstring) :
  (length (JS.trimStart s) <= length s)%nat.
Proof.
  induction s as [|c s IH]; simpl; [lia|].
  destruct (JS.is_white_space c); simpl; lia.
Qed.

Lemma trim_length (s : jsstring) : (length (JS.trim s) <= length s)%nat.
Proof.
  unfold JS.trim, JS.trimEnd.
  rewrite length_rev.
  etransitivity; [apply trimStart_length|].
  rewrite length_rev. apply trimStart_length.
Qed.

Lemma trimStart_solid (c : code_unit) (s : jsstring) :
  JS.is_white_space c = false -> JS.trimStart (c :: s) = c :: s.
Proof. intros H. simpl. now rewrite H. Qed.

Lemma trimStart_cases (s : jsstring) :
  JS.trimStart s = [] \/ starts_solid (JS.trimStart s).
Proof.
  induction s as [|c s IH]; [now left|]. cbn [JS.trimStart].
  destruct (JS.is_white_space c) eqn:Hc; [exact IH | now right].
Qed.

Lemma trimStart_suffix (s : jsstring) : exists p, s = p ++ JS.trimStart s.
Proof.
  induction s as [|c s [p IH]]; [now exists []|]. cbn [JS.trimStart].
  destruct (JS.is_white_space c).
  - exists (c :: p). cbn. now rewrite <- IH.
  - now exists [].
Qed.

(** A trimmed string is empty or has no white space at either end. *)
Lemma trim_tidy (s : jsstring) :
  JS.trim s = [] \/ (starts_solid (JS.trim s) /\ ends_solid (JS.trim s)).
Proof.
  unfold JS.trim, JS.trimEnd, ends_solid. rewrite rev_involutive.
  destruct (trimStart_cases (rev (JS.trimStart s))) as [Hnil|Hsolid].
  - left. now rewrite Hnil.
  - right. split; [|exact Hsolid].
    destruct (trimStart_suffix (rev (JS.trimStart s))) as [p Hp].
    apply (f_equal (@rev N)) in Hp. rewrite rev_involutive, rev_app_distr in Hp.
    destruct (rev (JS.trimStart (rev (JS.trimStart s)))) as [|c x] eqn:Hrev.
    + apply (f_equal (@rev N)) in Hrev. rewrite rev_involutive in Hrev.
      rewrite Hrev in Hsolid. destruct Hsolid.
    + destruct (trimStart_cases s) as [Hnil|Hs]; rewrite Hp in *; cbn in *;
        [discriminate | exact Hs].
Qed.

Lemma trimStart_split (s : jsstring) :
  exists before, s = before ++ JS.trimStart s /\ blank before.
Proof.
  induction s as [|c s (p & IH & Hp)]; [exists []; split; [reflexivity | constructor]|].
  cbn [JS.trimStart]. destruct (JS.is_white_space c) eqn:Hc.
  - exists (c :: p). split; [cbn; now rewrite <- IH | now constructor].
  - exists []. split; [reflexivity | constructor].
Qed.

(** [JS.trim] removes white space from the two ends and nothing else:
    what is left is empty or has no white space at either end. *)
Lemma trim_is_trimmed (s : jsstring) : trimmed_of s (JS.trim s).
Proof.
  split; [|apply trim_tidy].
  destruct (trimStart_split s) as (before & Hs & Hbefore).
  destruct (trimStart_split (rev (JS.trimStart s))) as (p & Hp & Hblank).
  exists before, (rev p). split; [|split; [exact Hbefore|]].
  - unfold JS.trim, JS.trimEnd. rewrite <- rev_app_distr, <- Hp, rev_involutive.
    exact Hs.
  - unfold blank in *. apply Forall_forall. intros c Hc.
    apply (proj1 (Forall_forall _ _) Hblank).
    apply list_elem_of_In, in_rev. now apply list_elem_of_In.
Qed.

(** ** The capped buffers *)

Lemma MAX_OUTPUT_LENGTH_nonneg : 0 <= MAX_OUTPUT_LENGTH.
Proof. unfold MAX_OUTPUT_LENGTH. lia. Qed.

(** A buffer that has been cut is a fixed point of every later write. *)
Lemma append_capped_cut (kept data : jsstring) :
  JS.strlen kept = MAX_OUTPUT_LENGTH ->
  append_capped (kept ++ truncation_marker) data = kept ++ truncation_marker.
Proof.
  intros Hlen. unfold append_capped, JS.strlen, JS.slice0 in *.
  assert (Hm : (0 < length truncation_marker)%nat) by (simpl; lia).
  destruct (Z.gtb_spec (Z.of_nat (length ((kept ++ truncation_marker) ++ data)))
              MAX_OUTPUT_LENGTH) as [_|Hle].
  - f_equal. rewrite <- app_assoc.
    apply take_app_length'. lia.
  - rewrite !length_app in Hle. lia.
Qed.

Lemma capped_step (written data : jsstring) :
  append_capped (capped written) data = capped (written ++ data).
Proof.
  pose proof MAX_OUTPUT_LENGTH_nonneg as Hmax.
  unfold capped at 1.
  destruct (Z.gtb_spec (JS.strlen written) MAX_OUTPUT_LENGTH) as [Hgt|Hle];
    [|reflexivity].
  unfold JS.strlen, JS.slice0 in *.
  rewrite append_capped_cut.
  - unfold capped, JS.strlen, JS.slice0.
    destruct (Z.gtb_spec (Z.of_nat (length (written ++ data))) MAX_OUTPUT_LENGTH)
      as [_|Hle].
    + f_equal. symmetry. apply take_app_le. lia.
    + rewrite length_app in Hle. lia.
  - unfold JS.strlen. rewrite length_take. lia.
Qed.

Lemma capped_length (written : jsstring) :
  JS.strlen (capped written) <= truncated_length.
Proof.
  pose proof MAX_OUTPUT_LENGTH_nonneg as Hmax.
  unfold capped, truncated_length.
  destruct (Z.gtb_spec (JS.strlen written) MAX_OUTPUT_LENGTH) as [Hgt|Hle].
  - unfold JS.strlen, JS.slice0 in *. rewrite length_app, length_take. lia.
  - unfold JS.strlen in *. lia.
Qed.

Lemma capped_over (written : jsstring) :
  MAX_OUTPUT_LENGTH < JS.strlen written ->
  capped written = JS.slice0 written MAX_OUTPUT_LENGTH ++ truncation_marker
  /\ JS.strlen (JS.slice0 written MAX_OUTPUT_LENGTH) = MAX_OUTPUT_LENGTH.
Proof.
  pose proof MAX_OUTPUT_LENGTH_nonneg as Hmax.
  intros Hlt. unfold capped.
  destruct (Z.gtb_spec (JS.strlen written) MAX_OUTPUT_LENGTH) as [_|Hle]; [|lia].
  split; [reflexivity|].
  unfold JS.strlen, JS.slice0 in *. rewrite length_take. lia.
Qed.

(** ** What the callbacks preserve *)

Ltac callback_cases inv ev :=
  destruct inv as [t0 out err proc sigs tm pr stm dlv]; destruct ev as [data|data|code|msg|el|el];
  unfold dispatch, on_stdout_data, on_stderr_data, on_close, on_error,
    on_timeout, resolve, kill, expire, clearTimeout, spawn_timeout_kill,
    child_exited;
  cbn [startTime stdout stderr process signals timeout promise spawn_timeout
       delivered].

Lemma run_app (inv : invocation) (pre post : list timed_event) :
  run inv (pre ++ post) = run (run inv pre) post.
Proof. unfold run. apply fold_left_app. Qed.

Lemma run_snoc (inv : invocation) (pre : list timed_event) (te : timed_event) :
  run inv (pre ++ [te]) = dispatch te (run inv pre).
Proof. now rewrite run_app. Qed.

Lemma dispatch_startTime (te : timed_event) (inv : invocation) :
  startTime (dispatch te inv) = startTime inv.
Proof.
  destruct te as [now ev]. callback_cases inv ev; repeat case_match; reflexivity.
Qed.

Lemma dispatch_process (te : timed_event) (inv : invocation) :
  process (dispatch te inv) = process inv.
Proof.
  destruct te as [now ev]. callback_cases inv ev; repeat case_match; reflexivity.
Qed.

Lemma dispatch_stdout (te : timed_event) (inv : invocation) (written : jsstring) :
  stdout inv = capped written ->
  stdout (dispatch te inv) = capped (written ++ stdout_chunk te).
Proof.
  destruct te as [now ev]. callback_cases inv ev; unfold stdout_chunk;
    cbn [snd]; intros ->; rewrite ?app_nil_r; try apply capped_step;
    repeat case_match; reflexivity.
Qed.

Lemma dispatch_stderr (te : timed_event) (inv : invocation) (written : jsstring) :
  stderr inv = capped written ->
  stderr (dispatch te inv) = capped (written ++ stderr_chunk te).
Proof.
  destruct te as [now ev]. callback_cases inv ev; unfold stderr_chunk;
    cbn [snd]; intros ->; rewrite ?app_nil_r; try apply capped_step;
    repeat case_match; reflexivity.
Qed.

(** A settled promise keeps its value whatever is delivered later. *)
Lemma dispatch_settled (te : timed_event) (inv : invocation) (r : ExecuteResponse) :
  promise inv = Some r -> promise (dispatch te inv) = Some r.
Proof.
  destruct te as [now ev]. callback_cases inv ev; intros ->;
    repeat case_match; reflexivity.
Qed.

Lemma run_settled (trace : list timed_event) (inv : invocation) (r : ExecuteResponse) :
  promise inv = Some r -> promise (run inv trace) = Some r.
Proof.
  revert inv. induction trace as [|te trace IH]; intros inv H; [exact H|].
  simpl. apply IH, dispatch_settled, H.
Qed.

Lemma dispatch_timer (te : timed_event) (inv : invocation) :
  timer_tracks_promise inv -> timer_tracks_promise (dispatch te inv).
Proof.
  unfold timer_tracks_promise.
  destruct te as [now ev]. callback_cases inv ev; intros H; try exact H.
  - destruct (is_zero code), pr, tm; cbn; intuition congruence.
  - destruct pr, tm; cbn; intuition congruence.
  - destruct tm, (EXECUTION_TIMEOUT <=? el), pr; cbn in *; intuition congruence.
  - destruct stm, (opt_timeout (options proc) <=? el); exact H.
Qed.

Lemma run_timer (trace : list timed_event) (inv : invocation) :
  timer_tracks_promise inv -> timer_tracks_promise (run inv trace).
Proof.
  revert inv. induction trace as [|te trace IH]; intros inv H; [exact H|].
  simpl. apply IH, dispatch_timer, H.
Qed.

Section Execution.

Variable penv : gmap jsstring jsstring.
Variables (script : jsstring) (start : Z).

Lemma execution_snoc (trace : list timed_event) (te : timed_event) :
  execution penv script start (trace ++ [te])
  = dispatch te (execution penv script start trace).
Proof. apply run_snoc. Qed.

Lemma execution_app (pre post : list timed_event) :
  execution penv script start (pre ++ post)
  = run (execution penv script start pre) post.
Proof. apply run_app. Qed.

Lemma execution_startTime (trace : list timed_event) :
  startTime (execution penv script start trace) = start.
Proof.
  induction trace as [|te trace IH] using rev_ind; [reflexivity|].
  now rewrite execution_snoc, dispatch_startTime.
Qed.

Lemma execution_process (trace : list timed_event) :
  process (execution penv script start trace)
  = process (started penv script start).
Proof.
  induction trace as [|te trace IH] using rev_ind; [reflexivity|].
  now rewrite execution_snoc, dispatch_process.
Qed.

Lemma execution_stdout (trace : list timed_event) :
  stdout (execution penv script start trace) = capped (stdout_written trace).
Proof.
  induction trace as [|te trace IH] using rev_ind; [reflexivity|].
  rewrite execution_snoc. unfold stdout_written.
  rewrite map_app, concat_app. cbn [map concat]. rewrite app_nil_r.
  now apply dispatch_stdout.
Qed.

Lemma execution_stderr (trace : list timed_event) :
  stderr (execution penv script start trace) = capped (stderr_written trace).
Proof.
  induction trace as [|te trace IH] using rev_ind; [reflexivity|].
  rewrite execution_snoc. unfold stderr_written.
  rewrite map_app, concat_app. cbn [map concat]. rewrite app_nil_r.
  now apply dispatch_stderr.
Qed.

(** Both buffers stay within cap plus marker, however much is written. *)
Lemma buffers_bounded (trace : list timed_event) :
  JS.strlen (stdout (execution penv script start trace)) <= truncated_length
  /\ JS.strlen (stderr (execution penv script start trace)) <= truncated_length.
Proof.
  rewrite execution_stdout, execution_stderr. split; apply capped_length.
Qed.

Lemma execution_timer (trace : list timed_event) :
  timer_tracks_promise (execution penv script start trace).
Proof. apply run_timer. unfold timer_tracks_promise. now cbn. Qed.

End Execution.

Lemma dispatch_unsignalled (te : timed_event) (inv : invocation) :
  unsignalled_while_armed inv -> unsignalled_while_armed (dispatch te inv).
Proof.
  unfold unsignalled_while_armed.
  destruct te as [now ev]. callback_cases inv ev; intros H; try exact H.
  - destruct (is_zero code), pr, tm; cbn in *; first [exact H | discriminate].
  - destruct pr, tm; cbn in *; first [exact H | discriminate].
  - destruct tm, (EXECUTION_TIMEOUT <=? el), pr; cbn in *;
      first [exact H | discriminate].
  - destruct stm, (opt_timeout (options proc) <=? el); exact H.
Qed.

Lemma execution_unsignalled penv script start (trace : list timed_event) :
  unsignalled_while_armed (execution penv script start trace).
Proof.
  induction trace as [|te trace IH] using rev_ind; [easy|].
  rewrite execution_snoc. now apply dispatch_unsignalled.
Qed.

(** A pending invocation: its timer is armed and no signal has been sent. *)
Lemma execution_pending penv script start (trace : list timed_event) :
  promise (execution penv script start trace) = None ->
  timeout (execution penv script start trace) = Pending
  /\ signals (execution penv script start trace) = [].
Proof.
  intros H. apply execution_timer in H. split; [exact H|].
  now apply execution_unsignalled.
Qed.

(** ** The terminal paths *)

Lemma on_close_pending (now : Z) (code : option Z) (inv : invocation) :
  promise inv = None ->
  promise (on_close now code (child_exited inv))
  = Some (if is_zero code
          then {| success := true;
                  output := Some (JS.or_else (JS.trim (stdout inv)) id
                                    (JS.lit "(no output)"));
                  error := None;
                  executionTime := Some (now - startTime inv) |}
          else {| success := false;
                  output := JS.or_else (JS.trim (stdout inv)) Some None;
                  error := Some (JS.or_else (JS.trim (stderr inv)) id
                                   (JS.lit "Process exited with code "
                                      ++ code_toString code));
                  executionTime := Some (now - startTime inv) |}).
Proof.
  destruct inv as [t0 out err proc sigs tm pr stm dlv]; cbn [promise]; intros ->.
  unfold on_close, resolve, clearTimeout, child_exited;
    cbn [startTime stdout stderr process signals timeout promise].
  destruct (is_zero code); reflexivity.
Qed.

(** C1: when the child exits with status zero while the call is still
    pending, the call resolves with [success] true, with [output] the
    captured stdout trimmed of surrounding white space, or the placeholder
    ["(no output)"] when nothing is left after trimming; [output] is never
    absent. *)
Theorem zero_exit_resolves_success penv script start pre now :
  promise (execution penv script start pre) = None ->
  promise (execution penv script start (pre ++ [(now, Close (Some 0))]))
  = Some {| success := true;
            output :=
              Some (match JS.trim (stdout (execution penv script start pre)) with
                    | [] => JS.lit "(no output)"
                    | c :: rest => c :: rest
                    end);
            error := None;
            executionTime := Some (now - start) |}.
Proof.
  intros Hpending. rewrite execution_snoc. cbn [dispatch].
  rewrite (on_close_pending _ _ _ Hpending), execution_startTime.
  cbn [is_zero Z.eqb]. unfold JS.or_else.
  destruct (JS.trim _); reflexivity.
Qed.

Lemma zero_exit_resolves_success_witness :
  promise (execution ∅ (JS.lit "print(' hi ')") 1000
             [(1020, StdoutData (JS.lit " hi " ++ [10%N]))]) = None
  /\ promise (execution ∅ (JS.lit "print(' hi ')") 1000
                ([(1020, StdoutData (JS.lit " hi " ++ [10%N]))]
                   ++ [(1031, Close (Some 0))]))
     = Some {| success := true; output := Some (JS.lit "hi"); error := None;
               executionTime := Some 31 |}.
Proof.
  split; [reflexivity|].
  apply (zero_exit_resolves_success ∅ (JS.lit "print(' hi ')") 1000
           [(1020, StdoutData (JS.lit " hi " ++ [10%N]))] 1031).
  reflexivity.
Defined.

(** C5: when the child exits with a nonzero status while the call is still
    pending, the call resolves with [success] false; [output] is the
    stdout buffer without the white space at its two ends, left out when
    nothing remains; [error] is the stderr buffer without the white space
    at its two ends, or, when nothing remains, ["Process exited with code "]
    followed by the decimal exit code. *)
Theorem nonzero_exit_resolves_failure penv script start pre now code :
  code <> 0 ->
  promise (execution penv script start pre) = None ->
  exists out err,
    trimmed_of (stdout (execution penv script start pre)) out
    /\ trimmed_of (stderr (execution penv script start pre)) err
    /\ out = JS.trim (stdout (execution penv script start pre))
    /\ err = JS.trim (stderr (execution penv script start pre))
    /\ promise (execution penv script start (pre ++ [(now, Close (Some code))]))
       = Some {| success := false;
                 output :=
                   match out with
                   | [] => None
                   | c :: rest => Some (c :: rest)
                   end;
                 error :=
                   Some (match err with
                         | [] => JS.lit "Process exited with code "
                                   ++ JS.Number_toString code
                         | c :: rest => c :: rest
                         end);
                 executionTime := Some (now - start) |}.
Proof.
  intros Hcode Hpending.
  exists (JS.trim (stdout (execution penv script start pre))),
         (JS.trim (stderr (execution penv script start pre))).
  split; [apply trim_is_trimmed|]. split; [apply trim_is_trimmed|].
  split; [reflexivity|]. split; [reflexivity|].
  rewrite execution_snoc. cbn [dispatch].
  rewrite (on_close_pending _ _ _ Hpending), execution_startTime.
  cbn [is_zero]. destruct (Z.eqb_spec code 0) as [->|_]; [easy|].
  unfold JS.or_else, code_toString.
  destruct (JS.trim (stdout _)), (JS.trim (stderr _)); reflexivity.
Qed.

Lemma nonzero_exit_resolves_failure_witness :
  ((3 <> 0
    /\ promise (execution ∅ (JS.lit "print(' partial '); exit(3)") 50
                  [(60, StdoutData (JS.lit " partial " ++ [10%N]))]) = None)
   /\ promise (execution ∅ (JS.lit "print(' partial '); exit(3)") 50
                 ([(60, StdoutData (JS.lit " partial " ++ [10%N]))]
                    ++ [(75, Close (Some 3))]))
      = Some {| success := false;
                output := Some (JS.lit "partial");
                error := Some (JS.lit "Process exited with code 3");
                executionTime := Some 25 |})
  /\ ((1 <> 0
       /\ promise (execution ∅ (JS.lit "raise ValueError('boom')") 50
                     [(58, StderrData ([10; 32]%N ++ JS.lit "ValueError: boom "));
                      (59, StderrData [13; 10]%N)]) = None)
      /\ promise (execution ∅ (JS.lit "raise ValueError('boom')") 50
                    ([(58, StderrData ([10; 32]%N ++ JS.lit "ValueError: boom "));
                      (59, StderrData [13; 10]%N)]
                       ++ [(64, Close (Some 1))]))
         = Some {| success := false;
                   output := None;
                   error := Some (JS.lit "ValueError: boom");
                   executionTime := Some 14 |}).
Proof.
  split.
  - split; [split; [lia | reflexivity]|].
    destruct (nonzero_exit_resolves_failure ∅
                (JS.lit "print(' partial '); exit(3)") 50
                [(60, StdoutData (JS.lit " partial " ++ [10%N]))] 75 3)
      as (out & err & _ & _ & -> & -> & Hresult); [lia | reflexivity |].
    exact Hresult.
  - split; [split; [lia | reflexivity]|].
    destruct (nonzero_exit_resolves_failure ∅
                (JS.lit "raise ValueError('boom')") 50
                [(58, StderrData ([10; 32]%N ++ JS.lit "ValueError: boom "));
                 (59, StderrData [13; 10]%N)] 64 1)
      as (out & err & _ & _ & -> & -> & Hresult); [lia | reflexivity |].
    exact Hresult.
Defined.

Example timeout_message :
  JS.lit "Execution timed out after "
    ++ JS.Number_toString (EXECUTION_TIMEOUT / 1000) ++ JS.lit " seconds"
  = JS.lit "Execution timed out after 30 seconds".
Proof. reflexivity. Qed.






(** ** The shape of every result *)

Lemma dispatch_well_formed (te : timed_event) (inv : invocation) (r : ExecuteResponse) :
  promise inv = None ->
  promise (dispatch te inv) = Some r ->
  well_formed (startTime inv) (fst te) r.
Proof.
  destruct te as [now ev]. cbn [fst]. intros Hpr.
  assert (Hshape : forall out err, well_formed (startTime inv) now
            {| success := false; output := out; error := Some err;
               executionTime := Some (now - startTime inv) |}).
  { intros out err. split; cbn; easy. }
  destruct ev as [data|data|code|msg|el|el]; cbn [dispatch].
  - destruct inv; cbn in *; congruence.
  - destruct inv; cbn in *; congruence.
  - rewrite (on_close_pending _ _ _ Hpr).
    destruct (is_zero code); intros [= <-]; [|apply Hshape].
    split; cbn; easy.
  - destruct inv as [t0 out err proc sigs tm pr stm dlv]; cbn in Hpr; subst pr.
    intros [= <-]. apply Hshape.
  - destruct inv as [t0 out err proc sigs tm pr stm dlv]; cbn in Hpr; subst pr.
    destruct tm, (EXECUTION_TIMEOUT <=? el); cbn; try discriminate.
    intros [= <-]. apply Hshape.
  - destruct inv as [t0 out err proc sigs tm pr stm dlv]; cbn in Hpr; subst pr.
    cbn [process spawn_timeout]. repeat case_match; cbn; discriminate.
Qed.

(** C6, as amended: whatever the event loop delivers, a result of the
    engine has [error] exactly when [success] is false, and has an
    [executionTime], which is what [Date.now()] read when the call was
    settled less what it read at entry; it is not negative when the clock
    has not been set back in between.  This covers the four terminal
    paths, which are the only callbacks that resolve. *)
Theorem result_well_formed penv script start trace r :
  promise (execution penv script start trace) = Some r ->
  exists now,
    In now (map fst trace)
    /\ well_formed start now r
    /\ (start <= now -> exists t, executionTime r = Some t /\ 0 <= t).
Proof.
  revert r. induction trace as [|te trace IH] using rev_ind; intros r;
    [discriminate|].
  rewrite execution_snoc, map_app.
  destruct (promise (execution penv script start trace)) as [r0|] eqn:Hpr.
  - rewrite (dispatch_settled _ _ _ Hpr). intros [= <-].
    destruct (IH r0 eq_refl) as (now & Hin & Hshape & Hclock).
    exists now. split; [apply in_or_app; now left|]. now split.
  - intros Hr. apply (dispatch_well_formed _ _ _ Hpr) in Hr.
    rewrite execution_startTime in Hr. exists (fst te).
    split; [apply in_or_app; right; now left|]. split; [exact Hr|].
    intros Hclock. exists (fst te - start). split; [apply Hr | lia].
Qed.

Lemma result_well_formed_witness :
  promise (execution ∅ (JS.lit "raise SystemExit(1)") 100
             [(130, StderrData (JS.lit "boom")); (140, Close (Some 1))])
  = Some {| success := false; output := None;
            error := Some (JS.lit "boom"); executionTime := Some 40 |}
  /\ exists now,
       In now (map fst [(130, StderrData (JS.lit "boom")); (140, Close (Some 1))])
       /\ well_formed 100 now
            {| success := false; output := None;
               error := Some (JS.lit "boom"); executionTime := Some 40 |}
       /\ (100 <= now ->
           exists t,
             executionTime {| success := false; output := None;
                              error := Some (JS.lit "boom");
                              executionTime := Some 40 |} = Some t
             /\ 0 <= t).
Proof.
  split; [reflexivity|].
  exact (result_well_formed ∅ (JS.lit "raise SystemExit(1)") 100
           [(130, StderrData (JS.lit "boom")); (140, Close (Some 1))] _ eq_refl).
Defined.

(** C6 as stated fails: [Date.now()] is the wall clock, and nothing in
    the code keeps a later reading from being below the reading at entry.
    A script that exits with status zero when the clock has been set back
    by ten milliseconds gets the [executionTime] -10. *)
Lemma execution_time_can_be_negative :
  promise (execution ∅ (JS.lit "print(1)") 100
             [(95, StdoutData (JS.lit "1")); (90, Close (Some 0))])
  = Some {| success := true; output := Some (JS.lit "1"); error := None;
            executionTime := Some (-10) |}
  /\ ~ 0 <= -10.
Proof. split; [reflexivity | lia]. Qed.

(** ** Single resolution *)

Lemma dispatch_quiet (te : timed_event) (inv : invocation) :
  settles (snd te) = false ->
  promise (dispatch te inv) = promise inv /\ timeout (dispatch te inv) = timeout inv.
Proof.
  destruct te as [now ev]. callback_cases inv ev; cbn [snd settles];
    try discriminate; intros Hquiet; try rewrite Hquiet;
    repeat case_match; split; reflexivity.
Qed.

Lemma run_quiet (trace : list timed_event) (inv : invocation) :
  Forall (fun te => settles (snd te) = false) trace ->
  promise (run inv trace) = promise inv /\ timeout (run inv trace) = timeout inv.
Proof.
  revert inv. induction trace as [|te trace IH]; intros inv H; [easy|].
  apply Forall_cons in H as [Hte Htrace].
  change (run inv (te :: trace)) with (run (dispatch te inv) trace).
  destruct (IH (dispatch te inv) Htrace) as [-> ->].
  now apply dispatch_quiet.
Qed.

(** The first settling event resolves a pending call and disarms its timer. *)
Lemma dispatch_first_signal (te : timed_event) (inv : invocation) :
  settles (snd te) = true ->
  promise inv = None ->
  timeout inv = Pending ->
  (exists r, promise (dispatch te inv) = Some r)
  /\ timeout (dispatch te inv)
     = match snd te with TimerFire _ => Fired | _ => Cleared end.
Proof.
  destruct te as [now ev]. callback_cases inv ev; cbn [snd settles];
    try discriminate; intros Hdue -> ->; try rewrite Hdue.
  - destruct (is_zero code); eauto.
  - eauto.
  - eauto.
Qed.





(** ** Truncation *)

Lemma trimStart_snoc_solid (s : jsstring) (d : code_unit) :
  JS.is_white_space d = false -> JS.trimStart (s ++ [d]) = JS.trimStart s ++ [d].
Proof.
  intros Hd. induction s as [|c s IH]; cbn [app JS.trimStart].
  - now rewrite Hd.
  - destruct (JS.is_white_space c); [exact IH | reflexivity].
Qed.

(** Trimming a string that ends with something other than white space
    only removes from the front. *)
Lemma trim_snoc_solid (s : jsstring) (d : code_unit) :
  JS.is_white_space d = false -> JS.trim (s ++ [d]) = JS.trimStart s ++ [d].
Proof.
  intros Hd. unfold JS.trim, JS.trimEnd.
  rewrite (trimStart_snoc_solid s d Hd), rev_app_distr.
  change (rev [d] ++ rev (JS.trimStart s)) with (d :: rev (JS.trimStart s)).
  rewrite (trimStart_solid d _ Hd).
  change (d :: rev (JS.trimStart s)) with (rev [d] ++ rev (JS.trimStart s)).
  rewrite <- rev_app_distr. apply rev_involutive.
Qed.

Lemma truncation_marker_snoc :
  truncation_marker = (10%N :: JS.lit "... (output truncated") ++ [41%N].
Proof. reflexivity. Qed.

(** The trim of a cut buffer: never empty, and the buffer itself when the
    kept part does not begin with white space. *)
Lemma trim_truncated (kept : jsstring) :
  JS.trim (kept ++ truncation_marker) <> []
  /\ forall c rest, kept = c :: rest -> JS.is_white_space c = false ->
       JS.trim (kept ++ truncation_marker) = kept ++ truncation_marker.
Proof.
  rewrite truncation_marker_snoc, app_assoc.
  rewrite trim_snoc_solid by reflexivity. split.
  - intros H. now apply app_eq_nil in H as [_ H].
  - intros c rest -> Hc. cbn [app]. now rewrite (trimStart_solid c _ Hc).
Qed.

Lemma stdout_written_app (pre post : list (Z * event)) :
  stdout_written (pre ++ post) = stdout_written pre ++ stdout_written post.
Proof. unfold stdout_written. now rewrite map_app, concat_app. Qed.

(** Once the writes of [cut] have exceeded the cap, the buffer is the
    first [MAX_OUTPUT_LENGTH] code units written followed by the marker,
    whatever is delivered afterwards. *)
Lemma stdout_after_cut penv script start (cut later : list (Z * event)) :
  MAX_OUTPUT_LENGTH < JS.strlen (stdout_written cut) ->
  stdout (execution penv script start (cut ++ later))
  = JS.slice0 (stdout_written cut) MAX_OUTPUT_LENGTH ++ truncation_marker.
Proof.
  intros Hover. pose proof MAX_OUTPUT_LENGTH_nonneg as Hmax.
  rewrite execution_stdout, stdout_written_app.
  destruct (capped_over (stdout_written cut ++ stdout_written later)) as [-> _].
  - unfold JS.strlen in *. rewrite length_app. lia.
  - f_equal. unfold JS.slice0, JS.strlen in *. apply take_app_le. lia.
Qed.

(** C2, as amended: once a stream has written more than the cap, the
    stdout buffer is the first [MAX_OUTPUT_LENGTH] code units written
    followed by the truncation marker, and stays so whatever arrives
    later; when the child then closes, [output] is that buffer trimmed:
    at most cap plus marker long, and exactly that long when the kept
    text does not begin with white space. *)
Theorem truncated_output_bounded penv script start cut later now code :
  MAX_OUTPUT_LENGTH < JS.strlen (stdout_written cut) ->
  promise (execution penv script start (cut ++ later)) = None ->
  JS.strlen (JS.slice0 (stdout_written cut) MAX_OUTPUT_LENGTH) = MAX_OUTPUT_LENGTH
  /\ stdout (execution penv script start cut)
     = JS.slice0 (stdout_written cut) MAX_OUTPUT_LENGTH ++ truncation_marker
  /\ stdout (execution penv script start (cut ++ later))
     = JS.slice0 (stdout_written cut) MAX_OUTPUT_LENGTH ++ truncation_marker
  /\ exists r,
       promise (execution penv script start ((cut ++ later) ++ [(now, Close code)]))
       = Some r
       /\ output r
          = Some (JS.trim (JS.slice0 (stdout_written cut) MAX_OUTPUT_LENGTH
                             ++ truncation_marker))
       /\ (forall out, output r = Some out -> JS.strlen out <= truncated_length)
       /\ (forall c rest out,
             JS.slice0 (stdout_written cut) MAX_OUTPUT_LENGTH = c :: rest ->
             JS.is_white_space c = false ->
             output r = Some out ->
             JS.strlen out = truncated_length).
Proof.
  intros Hover Hpending.
  destruct (capped_over _ Hover) as [_ Hkept].
  pose proof (stdout_after_cut penv script start cut [] Hover) as Hcut.
  rewrite app_nil_r in Hcut.
  pose proof (stdout_after_cut penv script start cut later Hover) as Hlater.
  set (kept := JS.slice0 (stdout_written cut) MAX_OUTPUT_LENGTH) in *.
  destruct (trim_truncated kept) as [Hne Hsolid].
  repeat split; try assumption.
  rewrite execution_snoc. cbn [dispatch].
  rewrite (on_close_pending _ _ _ Hpending), Hlater.
  assert (Hout : forall r, output r = Some (JS.trim (kept ++ truncation_marker)) ->
            (forall out, output r = Some out -> JS.strlen out <= truncated_length)
            /\ (forall c rest out, kept = c :: rest -> JS.is_white_space c = false ->
                  output r = Some out -> JS.strlen out = truncated_length)).
  { intros r ->. split.
    - intros out [= <-]. pose proof (trim_length (kept ++ truncation_marker)) as Hle.
      unfold truncated_length, JS.strlen in *. rewrite length_app in Hle. lia.
    - intros c rest out Hc Hws [= <-]. rewrite (Hsolid c rest Hc Hws).
      unfold truncated_length, JS.strlen in *. rewrite length_app. lia. }
  eexists. split; [reflexivity|].
  assert (Hfield : output
            (if is_zero code
             then {| success := true;
                     output := Some (JS.or_else (JS.trim (kept ++ truncation_marker)) id
                                       (JS.lit "(no output)"));
                     error := None;
                     executionTime :=
                       Some (now - startTime (execution penv script start (cut ++ later))) |}
             else {| success := false;
                     output := JS.or_else (JS.trim (kept ++ truncation_marker)) Some None;
                     error := Some (JS.or_else
                                      (JS.trim (stderr (execution penv script start
                                                          (cut ++ later)))) id
                                      (JS.lit "Process exited with code "
                                         ++ code_toString code));
                     executionTime :=
                       Some (now - startTime (execution penv script start (cut ++ later))) |})
          = Some (JS.trim (kept ++ truncation_marker))).
  { unfold JS.or_else.
    destruct (is_zero code), (JS.trim (kept ++ truncation_marker)); cbn;
      first [reflexivity | now destruct Hne]. }
  split; [exact Hfield | now apply Hout].
Qed.

Lemma truncated_output_bounded_witness :
  (MAX_OUTPUT_LENGTH < JS.strlen (stdout_written [(5, StdoutData long_text)])
   /\ promise (execution ∅ (JS.lit "print('a' * 10001)") 0
                 ([(5, StdoutData long_text)] ++ [(6, StdoutData [10%N])])) = None)
  /\ JS.strlen (JS.slice0 (stdout_written [(5, StdoutData long_text)])
                  MAX_OUTPUT_LENGTH) = MAX_OUTPUT_LENGTH
  /\ stdout (execution ∅ (JS.lit "print('a' * 10001)") 0 [(5, StdoutData long_text)])
     = JS.slice0 (stdout_written [(5, StdoutData long_text)]) MAX_OUTPUT_LENGTH
         ++ truncation_marker
  /\ stdout (execution ∅ (JS.lit "print('a' * 10001)") 0
               ([(5, StdoutData long_text)] ++ [(6, StdoutData [10%N])]))
     = JS.slice0 (stdout_written [(5, StdoutData long_text)]) MAX_OUTPUT_LENGTH
         ++ truncation_marker
  /\ exists r,
       promise (execution ∅ (JS.lit "print('a' * 10001)") 0
                  (([(5, StdoutData long_text)] ++ [(6, StdoutData [10%N])])
                     ++ [(8, Close (Some 0))]))
       = Some r
       /\ output r
          = Some (JS.trim (JS.slice0 (stdout_written [(5, StdoutData long_text)])
                             MAX_OUTPUT_LENGTH ++ truncation_marker))
       /\ (forall out, output r = Some out -> JS.strlen out <= truncated_length)
       /\ (forall c rest out,
             JS.slice0 (stdout_written [(5, StdoutData long_text)]) MAX_OUTPUT_LENGTH
             = c :: rest ->
             JS.is_white_space c = false ->
             output r = Some out ->
             JS.strlen out = truncated_length).
Proof.
  assert (Hover : MAX_OUTPUT_LENGTH
                  < JS.strlen (stdout_written [(5, StdoutData long_text)]))
    by (vm_compute; reflexivity).
  split; [split; [exact Hover | reflexivity]|].
  exact (truncated_output_bounded ∅ (JS.lit "print('a' * 10001)") 0
           [(5, StdoutData long_text)] [(6, StdoutData [10%N])] 8 (Some 0)
           Hover eq_refl).
Defined.

(** C2 as stated fails: a script that prints a line of [MAX_OUTPUT_LENGTH]
    spaces writes more than the cap and exits with status zero, yet its
    [output] is the 22 code units ["... (output truncated)"], not cap plus
    marker (10023) long. *)
Lemma truncated_output_can_be_shorter :
  MAX_OUTPUT_LENGTH < JS.strlen (stdout_written [(4, StdoutData blank_line)])
  /\ promise (execution ∅ (JS.lit "print(' ' * 10000)") 0
                [(4, StdoutData blank_line); (9, Close (Some 0))])
     = Some {| success := true;
               output := Some (JS.lit "... (output truncated)");
               error := None;
               executionTime := Some 9 |}
  /\ JS.strlen (JS.lit "... (output truncated)") <> truncated_length.
Proof.
  split; [vm_compute; reflexivity|].
  split; [|vm_compute; discriminate].
  lazy. reflexivity.
Qed.

(** C10: a buffer that has been cut (the [MAX_OUTPUT_LENGTH] code units
    kept, then the marker) is left as it is by every later data event:
    appending a chunk and applying the truncation step again gives the
    same string, for stdout and for stderr alike, so the whole invocation
    is unchanged. *)
Theorem truncated_buffer_is_fixed (kept data : jsstring) :
  JS.strlen kept = MAX_OUTPUT_LENGTH ->
  append_capped (kept ++ truncation_marker) data = kept ++ truncation_marker
  /\ (forall now inv, stdout inv = kept ++ truncation_marker ->
        dispatch (now, StdoutData data) inv = inv)
  /\ (forall now inv, stderr inv = kept ++ truncation_marker ->
        dispatch (now, StderrData data) inv = inv).
Proof.
  intros Hlen. pose proof (append_capped_cut kept data Hlen) as Hfix.
  split; [exact Hfix|].
  split; intros now [t0 out err proc sigs tm pr stm dlv]; cbn [stdout stderr]; intros ->;
    cbn [dispatch]; unfold on_stdout_data, on_stderr_data;
    cbn [startTime stdout stderr process signals timeout promise];
    now rewrite Hfix.
Qed.

Lemma truncated_buffer_is_fixed_witness :
  JS.strlen (JS.slice0 long_text MAX_OUTPUT_LENGTH) = MAX_OUTPUT_LENGTH
  /\ append_capped (JS.slice0 long_text MAX_OUTPUT_LENGTH ++ truncation_marker)
       (JS.lit "more")
     = JS.slice0 long_text MAX_OUTPUT_LENGTH ++ truncation_marker
  /\ (forall now inv,
        stdout inv = JS.slice0 long_text MAX_OUTPUT_LENGTH ++ truncation_marker ->
        dispatch (now, StdoutData (JS.lit "more")) inv = inv)
  /\ (forall now inv,
        stderr inv = JS.slice0 long_text MAX_OUTPUT_LENGTH ++ truncation_marker ->
        dispatch (now, StderrData (JS.lit "more")) inv = inv).
Proof.
  assert (Hlen : JS.strlen (JS.slice0 long_text MAX_OUTPUT_LENGTH)
                 = MAX_OUTPUT_LENGTH)
    by (vm_compute; reflexivity).
  split; [exact Hlen|].
  exact (truncated_buffer_is_fixed (JS.slice0 long_text MAX_OUTPUT_LENGTH)
           (JS.lit "more") Hlen).
Defined.

(** ** The handler *)

Example missing_script_rejected : acceptable JS.Undefined = false.
Proof. reflexivity. Qed.

Example empty_script_rejected : acceptable (JS.String []) = false.
Proof. reflexivity. Qed.

Example numeric_script_rejected :
  acceptable (JS.Number (JS.Finite (7 # 1))) = false.
Proof. reflexivity. Qed.

(** The guard [!script || typeof script !== "string"] rejects exactly
    what is not a non-empty text. *)
Lemma guard_rejects (script : JS.value) :
  (negb (JS.truthy script)
   || negb (JS.type_tag_eqb (JS.typeof script) JS.t_string))%bool
  = negb (acceptable script).
Proof.
  destruct script as [| |b|n|s|items|fields]; cbn; try reflexivity.
  - now destruct b.
  - destruct n as [q| |]; cbn; [now destruct (Qeq_bool q 0) | reflexivity..].
  - now destruct s.
Qed.

(** The three ways a request ends: rejected by the guard, failed
    because [spawn] threw, or answered with the engine's result. *)
Lemma post_execute_cases penv script start refused trace :
  post_execute penv script start refused trace
  = if acceptable script
    then
      if spawn_throws (process (started penv (as_string script) start)) refused
      then {| spawned := []; response := Some {| status := 500; body := None |} |}
      else
        {| spawned := [process (started penv (as_string script) start)];
           response :=
             match promise (execution penv (as_string script) start trace) with
             | Some result => Some {| status := 200; body := Some result |}
             | None => None
             end |}
    else {| spawned := [];
            response :=
              Some {| status := 400;
                      body := Some {| success := false;
                                      output := None;
                                      error := Some (JS.lit "Script is required");
                                      executionTime := None |} |} |}.
Proof.
  unfold post_execute, executePython. rewrite guard_rejects.
  destruct (acceptable script); cbn [negb]; [|reflexivity].
  now destruct (spawn_throws _ refused).
Qed.

(** C4: the claim holds for the requests the guard rejects (status 400,
    nothing spawned) but not for every valid script.  The script
    ["print(1)"] followed by U+0000 passes the guard; [spawn] throws on
    it inside the promise executor, which has no [try], so the promise
    rejects, no child is started, and the request is answered with status
    500 and no engine result, where the [error] listener turns a
    failure to start that is reported later into a result at status 200. *)
Theorem script_with_nul_is_answered_500 :
  acceptable (JS.String (JS.lit "print(1)" ++ [0%N])) = true
  /\ executePython ∅ (JS.lit "print(1)" ++ [0%N]) 0 false = Rejected
  /\ post_execute ∅ (JS.String (JS.lit "print(1)" ++ [0%N])) 0 false []
     = {| spawned := []; response := Some {| status := 500; body := None |} |}
  /\ response (post_execute ∅ (JS.String (JS.lit "print(1)")) 0 false
                 [(4, Error (JS.lit "spawn python3 ENOENT"))])
     = Some {| status := 200;
               body := Some {| success := false; output := None;
                               error := Some (JS.lit "Failed to execute: spawn python3 ENOENT");
                               executionTime := Some 4 |} |}.
Proof. repeat split. Qed.

Example engine_failure_is_status_200 :
  response (post_execute ∅ (JS.String (JS.lit "1/0")) 10 false
              [(12, StderrData (JS.lit "ZeroDivisionError")); (15, Close (Some 1))])
  = Some {| status := 200;
            body := Some {| success := false; output := None;
                            error := Some (JS.lit "ZeroDivisionError");
                            executionTime := Some 5 |} |}.
Proof. reflexivity. Qed.

(** ** The child's environment *)

(** C9: the environment given to [spawn] is the server's environment
    with [PYTHONIOENCODING] set to ["utf-8"]: that variable has this
    value, and away from it the two environments are the same map. *)
Theorem child_environment penv script start trace :
  opt_env (options (process (execution penv script start trace)))
  = <[PYTHONIOENCODING := JS.lit "utf-8"]> penv
  /\ opt_env (options (process (execution penv script start trace)))
     !! PYTHONIOENCODING = Some (JS.lit "utf-8")
  /\ delete PYTHONIOENCODING
       (opt_env (options (process (execution penv script start trace))))
     = delete PYTHONIOENCODING penv.
Proof.
  rewrite execution_process. cbn [started process options opt_env].
  split; [reflexivity|]. split.
  - apply lookup_insert_eq.
  - apply delete_insert_eq.
Qed.

(** ** The remaining paths of the engine *)

(** X1: an [error] event on a pending call (the child could not be
    started) resolves it with [success] false, no [output], the error
    ["Failed to execute: "] followed by the error's message, and the
    elapsed time; the timer is cancelled and nothing is sent to the child. *)
Theorem spawn_failure_reports penv script start pre now message :
  promise (execution penv script start pre) = None ->
  promise (execution penv script start (pre ++ [(now, Error message)]))
  = Some {| success := false;
            output := None;
            error := Some (JS.lit "Failed to execute: " ++ message);
            executionTime := Some (now - start) |}
  /\ timeout (execution penv script start (pre ++ [(now, Error message)])) = Cleared
  /\ signals (execution penv script start (pre ++ [(now, Error message)])) = []
  /\ delivered (execution penv script start (pre ++ [(now, Error message)]))
     = delivered (execution penv script start pre).
Proof.
  intros Hpending.
  destruct (execution_pending _ _ _ _ Hpending) as [Harmed Hsig].
  pose proof (execution_startTime penv script start pre) as Hstart.
  rewrite execution_snoc.
  destruct (execution penv script start pre) as [t0 out err proc sigs tm pr stm dlv].
  cbn [promise timeout signals startTime] in *. subst.
  repeat split.
Qed.

Lemma spawn_failure_reports_witness :
  promise (execution ∅ (JS.lit "print(1)") 40 []) = None
  /\ promise (execution ∅ (JS.lit "print(1)") 40
                ([] ++ [(43, Error (JS.lit "spawn python3 ENOENT"))]))
     = Some {| success := false;
               output := None;
               error := Some (JS.lit "Failed to execute: spawn python3 ENOENT");
               executionTime := Some 3 |}
  /\ timeout (execution ∅ (JS.lit "print(1)") 40
                ([] ++ [(43, Error (JS.lit "spawn python3 ENOENT"))])) = Cleared
  /\ signals (execution ∅ (JS.lit "print(1)") 40
                ([] ++ [(43, Error (JS.lit "spawn python3 ENOENT"))])) = []
  /\ delivered (execution ∅ (JS.lit "print(1)") 40
                  ([] ++ [(43, Error (JS.lit "spawn python3 ENOENT"))]))
     = delivered (execution ∅ (JS.lit "print(1)") 40 []).
Proof.
  split; [reflexivity|].
  apply (spawn_failure_reports ∅ (JS.lit "print(1)") 40 [] 43
           (JS.lit "spawn python3 ENOENT")).
  reflexivity.
Defined.

(** X2: a child ended by a signal closes with a [null] code, which is
    not [=== 0]: a pending call resolves with [success] false, the trimmed
    stdout if any as [output], and as [error] the trimmed stderr or, when
    that is empty, ["Process exited with code null"]. *)
Theorem signal_exit_reports_failure penv script start pre now :
  promise (execution penv script start pre) = None ->
  promise (execution penv script start (pre ++ [(now, Close None)]))
  = Some {| success := false;
            output :=
              match JS.trim (stdout (execution penv script start pre)) with
              | [] => None
              | c :: rest => Some (c :: rest)
              end;
            error :=
              Some (match JS.trim (stderr (execution penv script start pre)) with
                    | [] => JS.lit "Process exited with code null"
                    | c :: rest => c :: rest
                    end);
            executionTime := Some (now - start) |}.
Proof.
  intros Hpending. rewrite execution_snoc. cbn [dispatch].
  rewrite (on_close_pending _ _ _ Hpending), execution_startTime.
  cbn [is_zero]. unfold JS.or_else, code_toString.
  destruct (JS.trim (stdout _)), (JS.trim (stderr _)); reflexivity.
Qed.

Lemma signal_exit_reports_failure_witness :
  promise (execution ∅ (JS.lit "import os; os.abort()") 0
             [(2, StdoutData (JS.lit "partial "))]) = None
  /\ promise (execution ∅ (JS.lit "import os; os.abort()") 0
                ([(2, StdoutData (JS.lit "partial "))] ++ [(6, Close None)]))
     = Some {| success := false;
               output := Some (JS.lit "partial");
               error := Some (JS.lit "Process exited with code null");
               executionTime := Some 6 |}.
Proof.
  split; [reflexivity|].
  apply (signal_exit_reports_failure ∅ (JS.lit "import os; os.abort()") 0
           [(2, StdoutData (JS.lit "partial "))] 6).
  reflexivity.
Defined.

Lemma capped_under (written : jsstring) :
  JS.strlen written <= MAX_OUTPUT_LENGTH -> capped written = written.
Proof.
  intros Hle. unfold capped.
  destruct (Z.gtb_spec (JS.strlen written) MAX_OUTPUT_LENGTH); [lia | reflexivity].
Qed.

(** X4: whatever the child writes and however it is chunked, neither
    buffer ever holds more than cap plus marker (10023) code units. *)
Theorem buffers_never_exceed_cap penv script start trace :
  JS.strlen (stdout (execution penv script start trace)) <= truncated_length
  /\ JS.strlen (stderr (execution penv script start trace)) <= truncated_length.
Proof.
  rewrite execution_stdout, execution_stderr. split; apply capped_length.
Qed.

(** X3: when the texts of the stdout data events ([data.toString()] of
    each chunk) add up to no more than the cap and the child then exits
    with status zero on a pending call, none of that text is lost: the
    buffer holds the texts joined in order of arrival, and [output] is
    that, trimmed, or the placeholder when the trimmed text is empty.
    This speaks of the decoded texts only: a character whose bytes fall
    into two chunks is decoded differently from the same bytes in one. *)
Theorem short_output_is_complete penv script start pre now :
  JS.strlen (stdout_written pre) <= MAX_OUTPUT_LENGTH ->
  promise (execution penv script start pre) = None ->
  stdout (execution penv script start pre) = stdout_written pre
  /\ promise (execution penv script start (pre ++ [(now, Close (Some 0))]))
     = Some {| success := true;
               output := Some (match JS.trim (stdout_written pre) with
                               | [] => JS.lit "(no output)"
                               | c :: rest => c :: rest
                               end);
               error := None;
               executionTime := Some (now - start) |}.
Proof.
  intros Hshort Hpending.
  assert (Hbuf : stdout (execution penv script start pre) = stdout_written pre)
    by (rewrite execution_stdout; now apply capped_under).
  split; [exact Hbuf|].
  rewrite execution_snoc. cbn [dispatch].
  rewrite (on_close_pending _ _ _ Hpending), execution_startTime, Hbuf.
  cbn [is_zero Z.eqb]. unfold JS.or_else.
  destruct (JS.trim _); reflexivity.
Qed.

Lemma short_output_is_complete_witness :
  (JS.strlen (stdout_written [(3, StdoutData (JS.lit "4")); (4, StdoutData (JS.lit "2 "))])
   <= MAX_OUTPUT_LENGTH
   /\ promise (execution ∅ (JS.lit "print(42)") 1
                 [(3, StdoutData (JS.lit "4")); (4, StdoutData (JS.lit "2 "))]) = None)
  /\ stdout (execution ∅ (JS.lit "print(42)") 1
               [(3, StdoutData (JS.lit "4")); (4, StdoutData (JS.lit "2 "))])
     = stdout_written [(3, StdoutData (JS.lit "4")); (4, StdoutData (JS.lit "2 "))]
  /\ promise (execution ∅ (JS.lit "print(42)") 1
                ([(3, StdoutData (JS.lit "4")); (4, StdoutData (JS.lit "2 "))]
                   ++ [(9, Close (Some 0))]))
     = Some {| success := true; output := Some (JS.lit "42"); error := None;
               executionTime := Some 8 |}.
Proof.
  assert (Hshort : JS.strlen (stdout_written
                     [(3, StdoutData (JS.lit "4")); (4, StdoutData (JS.lit "2 "))])
                   <= MAX_OUTPUT_LENGTH)
    by (vm_compute; discriminate).
  split; [split; [exact Hshort | reflexivity]|].
  exact (short_output_is_complete ∅ (JS.lit "print(42)") 1
           [(3, StdoutData (JS.lit "4")); (4, StdoutData (JS.lit "2 "))] 9
           Hshort eq_refl).
Defined.

(** ** Signals *)


(** ** The text fields of a result *)

Lemma execution_result_fields penv script start trace r :
  promise (execution penv script start trace) = Some r ->
  (forall o, output r = Some o ->
     o <> [] /\ JS.strlen o <= truncated_length /\ starts_solid o /\ ends_solid o)
  /\ (forall e, error r = Some e -> e <> []).
Proof.
  revert r. induction trace as [|te trace IH] using rev_ind; intros r;
    [discriminate|].
  rewrite execution_snoc.
  destruct (promise (execution penv script start trace)) as [r0|] eqn:Hpr.
  { rewrite (dispatch_settled _ _ _ Hpr). intros [= <-]. now apply IH. }
  clear IH.
  assert (Htrim : forall o, JS.trim (stdout (execution penv script start trace)) = o ->
            o <> [] ->
            o <> [] /\ JS.strlen o <= truncated_length
            /\ starts_solid o /\ ends_solid o).
  { intros o <- Hne. split; [exact Hne|]. split.
    - pose proof (trim_length (stdout (execution penv script start trace))) as Hlen.
      pose proof (buffers_bounded penv script start trace) as [Hout _].
      unfold JS.strlen in *. lia.
    - destruct (trim_tidy (stdout (execution penv script start trace)));
        [contradiction | assumption]. }
  destruct te as [now [data|data|code|msg|el|el]]; cbn [dispatch].
  - destruct (execution penv script start trace); cbn in *; congruence.
  - destruct (execution penv script start trace); cbn in *; congruence.
  - rewrite (on_close_pending _ _ _ Hpr). unfold JS.or_else.
    destruct (is_zero code); intros [= <-]; cbn [output error]; split.
    + intros o [= <-].
      destruct (JS.trim (stdout (execution penv script start trace))) eqn:Ht.
      * repeat split; discriminate.
      * now apply Htrim.
    + discriminate.
    + intros o Ho.
      destruct (JS.trim (stdout (execution penv script start trace))) eqn:Ht;
        [discriminate|]. injection Ho as <-. now apply Htrim.
    + intros e [= <-].
      destruct (JS.trim (stderr (execution penv script start trace)));
        discriminate.
  - destruct (execution penv script start trace) as [t0 out err proc sigs tm pr stm dlv];
      cbn in Hpr; subst pr. intros [= <-]. split; cbn; [discriminate|].
    intros e [= <-]. discriminate.
  - destruct (execution penv script start trace) as [t0 out err proc sigs tm pr stm dlv];
      cbn in Hpr; subst pr. cbn [timeout].
    destruct tm, (EXECUTION_TIMEOUT <=? el); cbn; try discriminate.
    intros [= <-]. split; cbn; [discriminate|]. intros e [= <-]. discriminate.
  - destruct (execution penv script start trace) as [t0 out err proc sigs tm pr stm dlv];
      cbn in Hpr; subst pr. unfold spawn_timeout_kill. cbn [spawn_timeout process].
    repeat case_match; cbn; discriminate.
Qed.

(** X6: in every result of the engine, an [output] that is present is
    not empty, is at most cap plus marker long and has no white space at
    either end, and an [error] that is present is not empty. *)
Theorem result_fields_tidy penv script start trace r :
  promise (execution penv script start trace) = Some r ->
  (forall o, output r = Some o ->
     o <> [] /\ JS.strlen o <= truncated_length /\ starts_solid o /\ ends_solid o)
  /\ (forall e, error r = Some e -> e <> []).
Proof. apply execution_result_fields. Qed.

Lemma result_fields_tidy_witness :
  promise (execution ∅ (JS.lit "print(' ok '); 1/0") 0
             [(1, StdoutData (JS.lit " ok " ++ [10%N]));
              (2, StderrData (JS.lit "ZeroDivisionError" ++ [10%N]));
              (3, Close (Some 1))])
  = Some {| success := false; output := Some (JS.lit "ok");
            error := Some (JS.lit "ZeroDivisionError");
            executionTime := Some 3 |}
  /\ (JS.lit "ok" <> [] /\ JS.strlen (JS.lit "ok") <= truncated_length
      /\ starts_solid (JS.lit "ok") /\ ends_solid (JS.lit "ok"))
  /\ JS.lit "ZeroDivisionError" <> [].
Proof.
  pose proof (result_fields_tidy ∅ (JS.lit "print(' ok '); 1/0") 0
                [(1, StdoutData (JS.lit " ok " ++ [10%N]));
                 (2, StderrData (JS.lit "ZeroDivisionError" ++ [10%N]));
                 (3, Close (Some 1))]
                _ eq_refl) as [Hout Herr].
  split; [reflexivity|]. split.
  - exact (Hout (JS.lit "ok") eq_refl).
  - exact (Herr (JS.lit "ZeroDivisionError") eq_refl).
Defined.

(** ** What decides the result *)

(** A call that is still pending has met no event that settles. *)
Lemma pending_quiet penv script start trace :
  promise (execution penv script start trace) = None ->
  Forall (fun te => settles (snd te) = false) trace.
Proof.
  induction trace as [|te trace IH] using rev_ind; intros Hpending;
    [constructor|].
  rewrite execution_snoc in Hpending.
  destruct (promise (execution penv script start trace)) as [r|] eqn:Hpr.
  { rewrite (dispatch_settled _ _ _ Hpr) in Hpending. discriminate. }
  apply Forall_app. split; [now apply IH|]. constructor; [|constructor].
  destruct (settles (snd te)) eqn:Hte; [|reflexivity].
  pose proof (proj1 (execution_timer penv script start trace) Hpr) as Harmed.
  destruct (dispatch_first_signal te _ Hte Hpr Harmed) as [[r Hr] _].
  congruence.
Qed.

(** X7: [success] is true only for a child that exited with status zero
    before any other close, error or due deadline: the trace then has a
    [Close (Some 0)] that only events which settle nothing precede (data
    events, and timers that changed nothing). *)
Theorem success_only_after_zero_exit penv script start trace r :
  promise (execution penv script start trace) = Some r ->
  success r = true ->
  exists pre now post,
    trace = pre ++ (now, Close (Some 0)) :: post
    /\ Forall (fun te => settles (snd te) = false) pre.
Proof.
  revert r. induction trace as [|te trace IH] using rev_ind; intros r;
    [discriminate|].
  rewrite execution_snoc.
  destruct (promise (execution penv script start trace)) as [r0|] eqn:Hpr.
  - rewrite (dispatch_settled _ _ _ Hpr). intros [= <-] Hsucc.
    destruct (IH r0 eq_refl Hsucc) as (pre & now & post & -> & Hquiet).
    exists pre, now, (post ++ [te]). split; [|exact Hquiet].
    now rewrite <- app_assoc.
  - pose proof (pending_quiet _ _ _ _ Hpr) as Hquiet.
    destruct te as [now [data|data|code|msg|el|el]]; cbn [dispatch].
    + destruct (execution penv script start trace); cbn in *; congruence.
    + destruct (execution penv script start trace); cbn in *; congruence.
    + rewrite (on_close_pending _ _ _ Hpr).
      destruct code as [c|]; cbn [is_zero]; [|intros [= <-]; discriminate].
      destruct (Z.eqb_spec c 0) as [->|_]; intros [= <-] Hsucc; [|discriminate].
      now exists trace, now, [].
    + destruct (execution penv script start trace) as [t0 out err proc sigs tm pr stm dlv];
        cbn in Hpr; subst pr. intros [= <-]. discriminate.
    + destruct (execution penv script start trace) as [t0 out err proc sigs tm pr stm dlv];
        cbn in Hpr; subst pr. cbn [timeout].
      destruct tm, (EXECUTION_TIMEOUT <=? el); cbn; try discriminate.
      intros [= <-]. discriminate.
    + destruct (execution penv script start trace) as [t0 out err proc sigs tm pr stm dlv];
        cbn in Hpr; subst pr. unfold spawn_timeout_kill. cbn [spawn_timeout process].
      repeat case_match; cbn; discriminate.
Qed.

Lemma success_only_after_zero_exit_witness :
  (promise (execution ∅ (JS.lit "print(7)") 0
              [(1, StdoutData (JS.lit "7")); (2, Close (Some 0)); (3, TimerFire 30002)])
   = Some {| success := true; output := Some (JS.lit "7"); error := None;
             executionTime := Some 2 |}
   /\ success {| success := true; output := Some (JS.lit "7"); error := None;
                 executionTime := Some 2 |} = true)
  /\ exists pre now post,
       [(1, StdoutData (JS.lit "7")); (2, Close (Some 0)); (3, TimerFire 30002)]
       = pre ++ (now, Close (Some 0)) :: post
       /\ Forall (fun te => settles (snd te) = false) pre.
Proof.
  split; [split; reflexivity|].
  exact (success_only_after_zero_exit ∅ (JS.lit "print(7)") 0
           [(1, StdoutData (JS.lit "7")); (2, Close (Some 0)); (3, TimerFire 30002)]
           _ eq_refl eq_refl).
Defined.

(** What a callback resolves a pending call with is read off the clock
    reading at entry and the two buffers. *)
Lemma dispatch_promise_reads (te : timed_event) (inv1 inv2 : invocation) :
  promise inv1 = None -> promise inv2 = None ->
  timeout inv1 = timeout inv2 ->
  startTime inv1 = startTime inv2 ->
  stdout inv1 = stdout inv2 ->
  stderr inv1 = stderr inv2 ->
  promise (dispatch te inv1) = promise (dispatch te inv2).
Proof.
  destruct inv1 as [t1 out1 err1 proc1 sigs1 tm1 pr1 stm1 dlv1],
           inv2 as [t2 out2 err2 proc2 sigs2 tm2 pr2 stm2 dlv2].
  cbn [promise timeout startTime stdout stderr].
  intros -> -> -> -> -> ->.
  destruct te as [now [data|data|code|msg|el|el]]; cbn [dispatch]; try reflexivity.
  - unfold on_close, child_exited, resolve, clearTimeout; cbn.
    destruct stm1, stm2, (is_zero code); reflexivity.
  - cbn [timeout]. destruct tm2; try reflexivity.
    destruct (EXECUTION_TIMEOUT <=? el); reflexivity.
  - unfold spawn_timeout_kill. cbn [spawn_timeout process].
    repeat case_match; reflexivity.
Qed.

(** X8: the result is decided by the texts of the data events
    ([data.toString()] of each chunk) of each stream before the first
    close, error or due deadline, joined in order, and by that event: two
    executions in which these joined texts and that event are the same
    resolve with the same result, however the text is divided among the
    data events, however the events of the two streams are interleaved,
    and whatever is delivered afterwards.  This speaks of the decoded
    texts only, not of how the child's bytes were cut into chunks. *)
Theorem result_decided_by_first_signal penv script start pre1 pre2 te post1 post2 :
  Forall (fun te => settles (snd te) = false) pre1 ->
  Forall (fun te => settles (snd te) = false) pre2 ->
  stdout_written pre1 = stdout_written pre2 ->
  stderr_written pre1 = stderr_written pre2 ->
  settles (snd te) = true ->
  promise (execution penv script start (pre1 ++ te :: post1))
  = promise (execution penv script start (pre2 ++ te :: post2))
  /\ exists r, promise (execution penv script start (pre1 ++ te :: post1)) = Some r.
Proof.
  intros Hq1 Hq2 Hout Herr Hte.
  assert (Hfirst : forall pre post,
            Forall (fun te => settles (snd te) = false) pre ->
            promise (execution penv script start pre) = None
            /\ timeout (execution penv script start pre) = Pending
            /\ exists r,
                 promise (dispatch te (execution penv script start pre)) = Some r
                 /\ promise (execution penv script start (pre ++ te :: post))
                    = Some r).
  { intros pre post Hq.
    destruct (run_quiet pre (started penv script start) Hq) as [Hp Ht].
    fold (execution penv script start pre) in Hp, Ht. cbn in Hp, Ht.
    destruct (dispatch_first_signal te _ Hte Hp Ht) as [[r Hr] _].
    repeat split; try assumption. exists r. split; [exact Hr|].
    replace (execution penv script start (pre ++ te :: post))
      with (run (dispatch te (execution penv script start pre)) post).
    - now apply run_settled.
    - rewrite <- execution_snoc, <- execution_app, <- app_assoc. reflexivity. }
  destruct (Hfirst pre1 post1 Hq1) as (Hp1 & Ht1 & r1 & Hr1 & Hfin1).
  destruct (Hfirst pre2 post2 Hq2) as (Hp2 & Ht2 & r2 & Hr2 & Hfin2).
  split; [|now exists r1].
  rewrite Hfin1, Hfin2, <- Hr1, <- Hr2.
  apply dispatch_promise_reads; try assumption.
  - congruence.
  - now rewrite !execution_startTime.
  - now rewrite !execution_stdout, Hout.
  - now rewrite !execution_stderr, Herr.
Qed.

Lemma result_decided_by_first_signal_witness :
  (Forall (fun te => settles (snd te) = false)
     [(1, StdoutData (JS.lit "ab")); (2, StderrData (JS.lit "e"))]
   /\ Forall (fun te => settles (snd te) = false)
        [(5, StderrData (JS.lit "e")); (6, StdoutData (JS.lit "a"));
         (7, StdoutData (JS.lit "b"))]
   /\ stdout_written [(1, StdoutData (JS.lit "ab")); (2, StderrData (JS.lit "e"))]
      = stdout_written [(5, StderrData (JS.lit "e")); (6, StdoutData (JS.lit "a"));
                        (7, StdoutData (JS.lit "b"))]
   /\ stderr_written [(1, StdoutData (JS.lit "ab")); (2, StderrData (JS.lit "e"))]
      = stderr_written [(5, StderrData (JS.lit "e")); (6, StdoutData (JS.lit "a"));
                        (7, StdoutData (JS.lit "b"))]
   /\ settles (snd (9, Close (Some 2))) = true)
  /\ promise (execution ∅ (JS.lit "main()") 0
                ([(1, StdoutData (JS.lit "ab")); (2, StderrData (JS.lit "e"))]
                   ++ (9, Close (Some 2)) :: []))
     = promise (execution ∅ (JS.lit "main()") 0
                  ([(5, StderrData (JS.lit "e")); (6, StdoutData (JS.lit "a"));
                    (7, StdoutData (JS.lit "b"))]
                     ++ (9, Close (Some 2)) :: [(10, StdoutData (JS.lit "late"))]))
  /\ exists r,
       promise (execution ∅ (JS.lit "main()") 0
                  ([(1, StdoutData (JS.lit "ab")); (2, StderrData (JS.lit "e"))]
                     ++ (9, Close (Some 2)) :: []))
       = Some r.
Proof.
  assert (Hq1 : Forall (fun te => settles (snd te) = false)
                  [(1, StdoutData (JS.lit "ab")); (2, StderrData (JS.lit "e"))])
    by (repeat constructor).
  assert (Hq2 : Forall (fun te => settles (snd te) = false)
                  [(5, StderrData (JS.lit "e")); (6, StdoutData (JS.lit "a"));
                   (7, StdoutData (JS.lit "b"))])
    by (repeat constructor).
  split; [repeat split; assumption|].
  exact (result_decided_by_first_signal ∅ (JS.lit "main()") 0
           [(1, StdoutData (JS.lit "ab")); (2, StderrData (JS.lit "e"))]
           [(5, StderrData (JS.lit "e")); (6, StdoutData (JS.lit "a"));
            (7, StdoutData (JS.lit "b"))]
           (9, Close (Some 2)) [] [(10, StdoutData (JS.lit "late"))]
           Hq1 Hq2 eq_refl eq_refl eq_refl).
Defined.

(** ** Every response of the handler *)

Lemma execution_result_branch penv script start trace r :
  promise (execution penv script start trace) = Some r ->
  (success r = true <-> error r = None) /\ is_Some (executionTime r).
Proof.
  revert r. induction trace as [|te trace IH] using rev_ind; intros r;
    [discriminate|].
  rewrite execution_snoc.
  destruct (promise (execution penv script start trace)) as [r0|] eqn:Hpr.
  { rewrite (dispatch_settled _ _ _ Hpr). intros [= <-]. now apply IH. }
  clear IH.
  destruct te as [now [data|data|code|msg|el|el]]; cbn [dispatch].
  - destruct (execution penv script start trace); cbn in *; congruence.
  - destruct (execution penv script start trace); cbn in *; congruence.
  - rewrite (on_close_pending _ _ _ Hpr).
    destruct (is_zero code); intros [= <-]; cbn; split; eauto; easy.
  - destruct (execution penv script start trace) as [t0 out err proc sigs tm pr stm dlv];
      cbn in Hpr; subst pr. intros [= <-]. cbn. split; eauto; easy.
  - destruct (execution penv script start trace) as [t0 out err proc sigs tm pr stm dlv];
      cbn in Hpr; subst pr. cbn [timeout].
    destruct tm, (EXECUTION_TIMEOUT <=? el); cbn; try discriminate.
    intros [= <-]. cbn. split; eauto; easy.
  - destruct (execution penv script start trace) as [t0 out err proc sigs tm pr stm dlv];
      cbn in Hpr; subst pr. unfold spawn_timeout_kill. cbn [spawn_timeout process].
    repeat case_match; cbn; discriminate.
Qed.

(** X9: every response the handler sends is one of three.  A request
    that is not acceptable gets the rejection (status 400, [success] false,
    the error ["Script is required"], no [executionTime]) and nothing is
    spawned.  An acceptable one on which [spawn] throws gets status 500
    with no result, and nothing is spawned.  Any other gets status 200 and
    the result the engine resolved with, which has [error] exactly when
    [success] is false and has an [executionTime]; one child was spawned. *)
Theorem handler_response_shape penv script start refused trace resp :
  response (post_execute penv script start refused trace) = Some resp ->
  (status resp = 400 /\ acceptable script = false
   /\ body resp = Some {| success := false; output := None;
                          error := Some (JS.lit "Script is required");
                          executionTime := None |}
   /\ spawned (post_execute penv script start refused trace) = [])
  \/ (status resp = 500 /\ acceptable script = true
      /\ spawn_throws (process (started penv (as_string script) start)) refused = true
      /\ body resp = None
      /\ spawned (post_execute penv script start refused trace) = [])
  \/ (status resp = 200 /\ acceptable script = true
      /\ spawn_throws (process (started penv (as_string script) start)) refused = false
      /\ spawned (post_execute penv script start refused trace)
         = [process (started penv (as_string script) start)]
      /\ exists r,
           body resp = Some r
           /\ promise (execution penv (as_string script) start trace) = Some r
           /\ (success r = true <-> error r = None)
           /\ is_Some (executionTime r)).
Proof.
  rewrite post_execute_cases.
  destruct (acceptable script).
  - destruct (spawn_throws _ refused) eqn:Hthrows; cbn [response spawned].
    + intros [= <-]. right. left. now repeat split.
    + destruct (promise (execution penv (as_string script) start trace)) as [r|]
        eqn:Hr; [|discriminate].
      intros [= <-]. cbn [body status].
      destruct (execution_result_branch _ _ _ _ _ Hr) as [Hbranch Htime].
      right. right. do 4 (split; [reflexivity|]).
      exists r. split; [reflexivity|]. split; [reflexivity|].
      split; [exact Hbranch | exact Htime].
  - cbn [response spawned]. intros [= <-]. left. now repeat split.
Qed.

Lemma handler_response_shape_witness :
  (response (post_execute ∅ (JS.String (JS.lit "exit(2)")) 5 false [(8, Close (Some 2))])
   = Some {| status := 200;
             body := Some {| success := false; output := None;
                             error := Some (JS.lit "Process exited with code 2");
                             executionTime := Some 3 |} |}
   /\ response (post_execute ∅ (JS.String (JS.lit "x = '" ++ [0%N] ++ JS.lit "'")) 5 false
                  [(8, Close (Some 2))])
      = Some {| status := 500; body := None |})
  /\ (exists r : ExecuteResponse,
        Some {| success := false; output := None;
                error := Some (JS.lit "Process exited with code 2");
                executionTime := Some 3 |} = Some r
        /\ (success r = true <-> error r = None)
        /\ is_Some (executionTime r))
  /\ spawned (post_execute ∅ (JS.String (JS.lit "x = '" ++ [0%N] ++ JS.lit "'")) 5 false
                [(8, Close (Some 2))]) = [].
Proof.
  split; [split; reflexivity|]. split.
  - destruct (handler_response_shape ∅ (JS.String (JS.lit "exit(2)")) 5 false
                [(8, Close (Some 2))] _ eq_refl)
      as [(H & _) | [(H & _) | (_ & _ & _ & _ & r & Hbody & _ & Hbranch & Htime)]];
      [discriminate H | discriminate H |].
    exists r. exact (conj Hbody (conj Hbranch Htime)).
  - destruct (handler_response_shape ∅ (JS.String (JS.lit "x = '" ++ [0%N] ++ JS.lit "'"))
                5 false [(8, Close (Some 2))] _ eq_refl)
      as [(H & _) | [(_ & _ & _ & _ & Hnone) | (H & _)]];
      [discriminate H | exact Hnone | discriminate H].
Defined.

(** ** Storage keys *)

Example notes_key_of_user :
  Keys.getNotesKey (Some (JS.lit "guest-17")) = JS.lit "@user:guest-17:notes".
Proof. reflexivity. Qed.

Example secret_key_of_user :
  Keys.getPasswordSecretKey (Some (JS.lit "42")) (JS.lit "9_x") = JS.lit "pwd_42_9_x".
Proof. reflexivity. Qed.

Lemma no_user_cases (u : option jsstring) :
  (Keys.no_user u = true /\ (u = None \/ u = Some []))
  \/ (exists c s, u = Some (c :: s) /\ Keys.no_user u = false).
Proof. destruct u as [[|c s]|]; cbn; eauto 6. Qed.

(** Two strings with different endings stay different under any prefixes. *)
Lemma app_tail_differs (a b x y : jsstring) :
  length x = length y -> x <> y -> a ++ x <> b ++ y.
Proof.
  intros Hlen Hxy Heq. apply Hxy.
  apply (f_equal (@rev N)) in Heq. rewrite !rev_app_distr in Heq.
  assert (Hrev : rev x = rev y).
  { apply (f_equal (take (length (rev x)))) in Heq.
    rewrite take_app_length in Heq.
    rewrite take_app_length' in Heq by (now rewrite !length_rev). exact Heq. }
  apply (f_equal (@rev N)) in Hrev. now rewrite !rev_involutive in Hrev.
Qed.

Ltac key_cases u :=
  destruct (no_user_cases u) as [[? [-> | ->]] | (? & ? & -> & ?)].

(** X10: the notes key, and likewise the settings key, tells users
    apart: two values of [currentUserId] give the same key only when they
    are the same user or both stand for no user ([null] or the empty
    string, which share the legacy key). *)
Theorem user_keys_separate (u1 u2 : option jsstring) :
  Keys.getNotesKey u1 = Keys.getNotesKey u2
  \/ Keys.getSettingsKey u1 = Keys.getSettingsKey u2 ->
  u1 = u2 \/ (Keys.no_user u1 = true /\ Keys.no_user u2 = true).
Proof.
  unfold Keys.getNotesKey, Keys.getSettingsKey.
  key_cases u1; key_cases u2; cbn [Keys.no_user Keys.text];
    intros [Heq | Heq]; auto; try (cbn in Heq; discriminate Heq).
  - apply app_inv_head, app_inv_tail in Heq. left. now rewrite Heq.
  - apply app_inv_head, app_inv_tail in Heq. left. now rewrite Heq.
Qed.

Lemma user_keys_separate_witness :
  (Keys.getNotesKey None = Keys.getNotesKey (Some [])
   \/ Keys.getSettingsKey None = Keys.getSettingsKey (Some []))
  /\ (None = Some (@nil N)
      \/ (Keys.no_user None = true /\ Keys.no_user (Some []) = true)).
Proof.
  split; [left; reflexivity|].
  apply (user_keys_separate None (Some [])). left. reflexivity.
Defined.

Lemma key_kinds_apart (u1 u2 : option jsstring) :
  Keys.getNotesKey u1 <> Keys.getSettingsKey u2
  /\ Keys.getNotesKey u1 <> Keys.getPasswordIndexKey u2
  /\ Keys.getSettingsKey u1 <> Keys.getPasswordIndexKey u2
  /\ Keys.getNotesKey u1 <> Keys.CURRENT_USER_KEY
  /\ Keys.getSettingsKey u1 <> Keys.CURRENT_USER_KEY
  /\ Keys.getPasswordIndexKey u1 <> Keys.CURRENT_USER_KEY.
Proof.
  assert (Hns : forall a b : jsstring,
            JS.lit "@user:" ++ a ++ JS.lit ":notes"
            <> JS.lit "@user:" ++ b ++ JS.lit ":settings").
  { intros a b H. apply app_inv_head in H. revert H.
    change (JS.lit ":settings") with (JS.lit ":se" ++ JS.lit "ttings").
    rewrite (app_assoc b). now apply app_tail_differs. }
  assert (Hnp : forall a b : jsstring,
            JS.lit "@user:" ++ a ++ JS.lit ":notes"
            <> JS.lit "@user:" ++ b ++ JS.lit ":passwords:index").
  { intros a b H. apply app_inv_head in H. revert H.
    change (JS.lit ":passwords:index") with (JS.lit ":passwords" ++ JS.lit ":index").
    rewrite (app_assoc b). now apply app_tail_differs. }
  assert (Hsp : forall a b : jsstring,
            JS.lit "@user:" ++ a ++ JS.lit ":settings"
            <> JS.lit "@user:" ++ b ++ JS.lit ":passwords:index").
  { intros a b H. apply app_inv_head in H. revert H.
    change (JS.lit ":passwords:index") with (JS.lit ":passwords" ++ JS.lit ":index").
    change (JS.lit ":settings") with (JS.lit ":se" ++ JS.lit "ttings").
    rewrite (app_assoc a), (app_assoc b). now apply app_tail_differs. }
  unfold Keys.getNotesKey, Keys.getSettingsKey, Keys.getPasswordIndexKey,
    Keys.USER_KEY_PREFIX, Keys.NOTES_SUFFIX, Keys.SETTINGS_SUFFIX.
  key_cases u1; key_cases u2; cbn [Keys.no_user Keys.text];
    repeat split;
    first [apply Hns | apply Hnp | apply Hsp | (cbn; discriminate)].
Qed.

(** X11: the kinds of key never meet: no notes key is a settings key or
    a password index key, no settings key is a password index key, and
    none of them is the key that stores the current user id, whoever the
    users are. *)
Theorem key_kinds_disjoint (u1 u2 : option jsstring) :
  Keys.getNotesKey u1 <> Keys.getSettingsKey u2
  /\ Keys.getNotesKey u1 <> Keys.getPasswordIndexKey u2
  /\ Keys.getSettingsKey u1 <> Keys.getPasswordIndexKey u2
  /\ Keys.getNotesKey u1 <> Keys.CURRENT_USER_KEY
  /\ Keys.getSettingsKey u1 <> Keys.CURRENT_USER_KEY
  /\ Keys.getPasswordIndexKey u1 <> Keys.CURRENT_USER_KEY.
Proof. apply key_kinds_apart. Qed.

(** X12: under one user the secret key tells password entries apart:
    equal keys mean equal entry ids. *)
Theorem secret_keys_separate_entries (u : option jsstring) (id1 id2 : jsstring) :
  Keys.getPasswordSecretKey u id1 = Keys.getPasswordSecretKey u id2 ->
  id1 = id2.
Proof.
  unfold Keys.getPasswordSecretKey.
  destruct (Keys.no_user u); intros H.
  - now apply app_inv_head in H.
  - now do 3 apply app_inv_head in H.
Qed.

Lemma secret_keys_separate_entries_witness :
  Keys.getPasswordSecretKey (Some (JS.lit "guest-5")) (JS.lit "17_ab")
  = Keys.getPasswordSecretKey (Some (JS.lit "guest-5")) (JS.lit "17_ab")
  /\ JS.lit "17_ab" = JS.lit "17_ab".
Proof.
  split; [reflexivity|].
  apply (secret_keys_separate_entries (Some (JS.lit "guest-5"))). reflexivity.
Defined.

Lemma split_at_underscore (u1 u2 id1 id2 : jsstring) :
  ~ In 95%N u1 -> ~ In 95%N u2 ->
  u1 ++ 95%N :: id1 = u2 ++ 95%N :: id2 -> u1 = u2 /\ id1 = id2.
Proof.
  revert u2. induction u1 as [|c u1 IH]; intros [|d u2] H1 H2 Heq; cbn in *.
  - now injection Heq.
  - injection Heq as <- _. tauto.
  - injection Heq as -> _. tauto.
  - injection Heq as -> Heq. destruct (IH u2) as [-> ->]; tauto.
Qed.

(** X13: across users whose ids contain no underscore (as the ids of
    guests, ["guest-"] and a number, do), the secret key tells both the
    user and the entry apart. *)
Theorem secret_keys_separate_users (u1 u2 id1 id2 : jsstring) :
  u1 <> [] -> u2 <> [] -> ~ In 95%N u1 -> ~ In 95%N u2 ->
  Keys.getPasswordSecretKey (Some u1) id1 = Keys.getPasswordSecretKey (Some u2) id2 ->
  u1 = u2 /\ id1 = id2.
Proof.
  intros Hn1 Hn2 H1 H2. unfold Keys.getPasswordSecretKey.
  destruct u1 as [|c1 u1]; [contradiction|].
  destruct u2 as [|c2 u2]; [contradiction|].
  cbn [Keys.no_user Keys.text]. intros Heq. apply app_inv_head in Heq.
  now apply split_at_underscore.
Qed.

Lemma secret_keys_separate_users_witness :
  (JS.lit "guest-5" <> [] /\ JS.lit "guest-5" <> []
   /\ ~ In 95%N (JS.lit "guest-5") /\ ~ In 95%N (JS.lit "guest-5")
   /\ Keys.getPasswordSecretKey (Some (JS.lit "guest-5")) (JS.lit "17_ab")
      = Keys.getPasswordSecretKey (Some (JS.lit "guest-5")) (JS.lit "17_ab"))
  /\ JS.lit "guest-5" = JS.lit "guest-5" /\ JS.lit "17_ab" = JS.lit "17_ab".
Proof.
  assert (Hne : JS.lit "guest-5" <> []) by discriminate.
  assert (Hin : ~ In 95%N (JS.lit "guest-5")).
  { cbn. intros H. repeat (destruct H as [H|H]; [discriminate H|]). exact H. }
  split; [repeat split; assumption|].
  exact (secret_keys_separate_users (JS.lit "guest-5") (JS.lit "guest-5")
           (JS.lit "17_ab") (JS.lit "17_ab") Hne Hne Hin Hin eq_refl).
Defined.

(** X14: without that condition the boundary between user id and entry
    id is lost: moving a piece across the underscore gives a different
    user and entry with the same secret key. *)
Theorem secret_key_boundary_ambiguous (c : code_unit) (u a b : jsstring) :
  Keys.getPasswordSecretKey (Some ((c :: u) ++ JS.lit "_" ++ a)) b
  = Keys.getPasswordSecretKey (Some (c :: u)) (a ++ JS.lit "_" ++ b)
  /\ Some ((c :: u) ++ JS.lit "_" ++ a) <> Some (c :: u).
Proof.
  split.
  - unfold Keys.getPasswordSecretKey. cbn [Keys.no_user app Keys.text].
    f_equal. cbn [app]. f_equal. now rewrite <- !app_assoc.
  - intros [= H]. apply (f_equal (@length N)) in H.
    rewrite length_app in H. cbn in H. lia.
Qed.

(** ** [extractYouTubeId] *)

Example extract_watch_url :
  YouTube.extractYouTubeId (JS.lit "https://www.youtube.com/watch?v=dQw4w9WgXcQ&t=3")
  = Some (JS.lit "dQw4w9WgXcQ").
Proof. reflexivity. Qed.

Example extract_rejects_short : YouTube.extractYouTubeId (JS.lit "dQw4w9WgXc") = None.
Proof. reflexivity. Qed.

Lemma strip_prefix_app (p s rest : jsstring) :
  YouTube.strip_prefix p s = Some rest -> s = p ++ rest.
Proof.
  revert s. induction p as [|a p IH]; intros s; cbn.
  - now intros [= ->].
  - destruct s as [|b s]; [discriminate|].
    destruct (N.eqb_spec a b) as [->|_]; [|discriminate].
    intros H. now rewrite (IH s H).
Qed.

Lemma strip_prefix_self (p s : jsstring) : YouTube.strip_prefix p (p ++ s) = Some s.
Proof. induction p as [|a p IH]; cbn; [reflexivity|]. now rewrite N.eqb_refl. Qed.

Lemma take_id_spec (s id : jsstring) :
  YouTube.take_id s = Some id ->
  length id = 11%nat /\ forallb YouTube.is_id_char id = true
  /\ exists rest, s = id ++ rest.
Proof.
  unfold YouTube.take_id.
  destruct (Nat.eqb_spec (length (take 11 s)) 11) as [Hlen|_]; [|discriminate].
  destruct (forallb YouTube.is_id_char (take 11 s)) eqn:Hall; [|discriminate].
  cbn. intros [= <-]. repeat split; try assumption.
  exists (drop 11 s). now rewrite take_drop.
Qed.

Lemma take_id_here (id rest : jsstring) :
  length id = 11%nat -> forallb YouTube.is_id_char id = true ->
  YouTube.take_id (id ++ rest) = Some id.
Proof.
  intros Hlen Hall. unfold YouTube.take_id.
  rewrite (take_app_length' id rest 11) by now symmetry.
  now rewrite Hlen, Hall.
Qed.

Lemma match_here_spec (alts : list jsstring) (s id : jsstring) :
  YouTube.match_here alts s = Some id ->
  length id = 11%nat /\ forallb YouTube.is_id_char id = true
  /\ exists p rest, In p alts /\ s = p ++ id ++ rest.
Proof.
  induction alts as [|p alts IH]; cbn [YouTube.match_here]; [discriminate|].
  assert (Hnext : YouTube.match_here alts s = Some id ->
            length id = 11%nat /\ forallb YouTube.is_id_char id = true
            /\ exists p0 rest, In p0 (p :: alts) /\ s = p0 ++ id ++ rest).
  { intros H. destruct (IH H) as (Hlen & Hall & p0 & rest & Hin & Hs).
    repeat split; try assumption. exists p0, rest. split; [now right | exact Hs]. }
  destruct (YouTube.strip_prefix p s) as [after|] eqn:Hstrip; [|exact Hnext].
  destruct (YouTube.take_id after) as [found|] eqn:Htake; [|exact Hnext].
  intros [= ->]. destruct (take_id_spec _ _ Htake) as (Hlen & Hall & rest & ->).
  repeat split; try assumption. exists p, rest. split; [now left|].
  now apply strip_prefix_app.
Qed.

Lemma search_spec (s id : jsstring) :
  YouTube.search s = Some id ->
  length id = 11%nat /\ forallb YouTube.is_id_char id = true
  /\ exists before p rest, In p YouTube.alternatives /\ s = before ++ p ++ id ++ rest.
Proof.
  induction s as [|c s IH].
  - cbn. discriminate.
  - cbn [YouTube.search].
    destruct (YouTube.match_here YouTube.alternatives (c :: s)) as [found|] eqn:Hhere.
    + intros [= ->].
      destruct (match_here_spec _ _ _ Hhere) as (Hlen & Hall & p & rest & Hin & Hs).
      repeat split; try assumption. exists [], p, rest. now split.
    + intros H. destruct (IH H) as (Hlen & Hall & before & p & rest & Hin & ->).
      repeat split; try assumption. exists (c :: before), p, rest. now split.
Qed.

(** X15: an id that [extractYouTubeId] returns is eleven code units of
    the class [[a-zA-Z0-9_-]] that stand together in the url; the empty
    url gives none. *)
Theorem extracted_id_is_well_formed (url id : jsstring) :
  YouTube.extractYouTubeId url = Some id ->
  length id = 11%nat
  /\ forallb YouTube.is_id_char id = true
  /\ url <> []
  /\ exists before rest, url = before ++ id ++ rest.
Proof.
  unfold YouTube.extractYouTubeId. destruct url as [|c url]; [discriminate|].
  destruct (YouTube.search (c :: url)) as [found|] eqn:Hsearch.
  - intros [= ->].
    destruct (search_spec _ _ Hsearch) as (Hlen & Hall & before & p & rest & _ & Hs).
    repeat split; try assumption; [discriminate|].
    exists (before ++ p), rest. now rewrite <- app_assoc.
  - unfold YouTube.whole.
    destruct (Nat.eqb_spec (length (c :: url)) 11) as [Hlen|_]; [|discriminate].
    destruct (forallb YouTube.is_id_char (c :: url)) eqn:Hall; [|discriminate].
    cbn [andb]. intros [= <-]. repeat split; try assumption; [discriminate|].
    exists [], []. now rewrite app_nil_r.
Qed.

Lemma extracted_id_is_well_formed_witness :
  YouTube.extractYouTubeId (JS.lit "see youtu.be/abcdefghijk now")
  = Some (JS.lit "abcdefghijk")
  /\ length (JS.lit "abcdefghijk") = 11%nat
  /\ forallb YouTube.is_id_char (JS.lit "abcdefghijk") = true
  /\ JS.lit "see youtu.be/abcdefghijk now" <> []
  /\ exists before rest,
       JS.lit "see youtu.be/abcdefghijk now" = before ++ JS.lit "abcdefghijk" ++ rest.
Proof.
  split; [reflexivity|].
  apply (extracted_id_is_well_formed (JS.lit "see youtu.be/abcdefghijk now")).
  reflexivity.
Defined.

Lemma strip_prefix_id_chars (p s rest : jsstring) :
  YouTube.strip_prefix p s = Some rest ->
  forallb YouTube.is_id_char s = true -> forallb YouTube.is_id_char p = true.
Proof.
  intros Hstrip Hall. apply strip_prefix_app in Hstrip. subst s.
  rewrite forallb_app in Hall. now apply andb_prop in Hall as [Hp _].
Qed.

Lemma search_id_chars (s : jsstring) :
  forallb YouTube.is_id_char s = true -> YouTube.search s = None.
Proof.
  assert (Hhere : forall t, forallb YouTube.is_id_char t = true ->
            YouTube.match_here YouTube.alternatives t = None).
  { intros t Hall. unfold YouTube.alternatives. cbn [YouTube.match_here].
    repeat match goal with
    | |- context [YouTube.strip_prefix ?p t] =>
        let Hs := fresh "Hs" in
        destruct (YouTube.strip_prefix p t) eqn:Hs;
        [apply strip_prefix_id_chars in Hs; [discriminate Hs | exact Hall]|]
    end. reflexivity. }
  induction s as [|c s IH]; intros Hall.
  - reflexivity.
  - cbn [YouTube.search]. rewrite (Hhere _ Hall).
    apply IH. cbn in Hall. now apply andb_prop in Hall as [_ Hs].
Qed.

(** X16: on a text made of id characters only, no url pattern can
    match, and the text is returned exactly when it is eleven long: a bare
    video id is accepted as it is, a shorter or longer one is refused. *)
Theorem bare_id_accepted (s : jsstring) :
  forallb YouTube.is_id_char s = true ->
  YouTube.extractYouTubeId s = if (length s =? 11)%nat then Some s else None.
Proof.
  intros Hall. unfold YouTube.extractYouTubeId. destruct s as [|c s]; [reflexivity|].
  rewrite (search_id_chars _ Hall). unfold YouTube.whole. rewrite Hall.
  now destruct (length (c :: s) =? 11)%nat.
Qed.

Lemma bare_id_accepted_witness :
  forallb YouTube.is_id_char (JS.lit "dQw4w9WgXcQ") = true
  /\ YouTube.extractYouTubeId (JS.lit "dQw4w9WgXcQ")
     = if (length (JS.lit "dQw4w9WgXcQ") =? 11)%nat
       then Some (JS.lit "dQw4w9WgXcQ") else None.
Proof.
  split; [reflexivity|].
  apply (bare_id_accepted (JS.lit "dQw4w9WgXcQ")). reflexivity.
Defined.

Lemma match_here_link (p id rest : jsstring) :
  In p YouTube.alternatives ->
  length id = 11%nat -> forallb YouTube.is_id_char id = true ->
  YouTube.match_here YouTube.alternatives (p ++ id ++ rest) = Some id.
Proof.
  intros Hin Hlen Hall. pose proof (take_id_here id rest Hlen Hall) as Htake.
  unfold YouTube.alternatives in *. cbn [In] in Hin.
  destruct Hin as [<-|[<-|[<-|[]]]]; cbn [YouTube.match_here].
  - now rewrite strip_prefix_self, Htake.
  - change (YouTube.strip_prefix (JS.lit "youtube.com/watch?v=")
              (JS.lit "youtu.be/" ++ id ++ rest)) with (@None (list N)).
    now rewrite strip_prefix_self, Htake.
  - change (YouTube.strip_prefix (JS.lit "youtube.com/watch?v=")
              (JS.lit "youtube.com/embed/" ++ id ++ rest)) with (@None (list N)).
    change (YouTube.strip_prefix (JS.lit "youtu.be/")
              (JS.lit "youtube.com/embed/" ++ id ++ rest)) with (@None (list N)).
    now rewrite strip_prefix_self, Htake.
Qed.

Lemma match_here_no_y (c : code_unit) (s : jsstring) :
  c <> 121%N -> YouTube.match_here YouTube.alternatives (c :: s) = None.
Proof.
  intros Hc.
  assert (Hheads : Forall (fun p => exists t, p = 121%N :: t) YouTube.alternatives).
  { repeat constructor; eexists; lazy; reflexivity. }
  induction Hheads as [|p alts [t ->] _ IH]; [reflexivity|].
  cbn [YouTube.match_here YouTube.strip_prefix].
  destruct (N.eqb_spec 121 c) as [<-|_]; [contradiction | exact IH].
Qed.

(** X17: a link in one of the three forms ([youtube.com/watch?v=],
    [youtu.be/], [youtube.com/embed/]) followed by a well-formed id is
    found, whatever comes after the id, when the text before the link has
    no [y] in it (as [https://www.] and [https://m.] have none). *)
Theorem link_id_found (before p id rest : jsstring) :
  ~ In 121%N before ->
  In p YouTube.alternatives ->
  length id = 11%nat ->
  forallb YouTube.is_id_char id = true ->
  YouTube.extractYouTubeId (before ++ p ++ id ++ rest) = Some id.
Proof.
  intros Hy Hin Hlen Hall.
  assert (Hsearch : YouTube.search (before ++ p ++ id ++ rest) = Some id).
  { induction before as [|c before IH].
    - cbn [app]. pose proof (match_here_link p id rest Hin Hlen Hall) as Hhere.
      destruct (p ++ id ++ rest); cbn [YouTube.search]; now rewrite Hhere.
    - cbn [app YouTube.search]. rewrite match_here_no_y.
      + apply IH. intros H. apply Hy. now right.
      + intros ->. apply Hy. now left. }
  unfold YouTube.extractYouTubeId. rewrite Hsearch.
  destruct (before ++ p ++ id ++ rest) eqn:Hs; [|reflexivity].
  cbn in Hsearch. discriminate.
Qed.

Lemma link_id_found_witness :
  (~ In 121%N (JS.lit "https://www.")
   /\ In (JS.lit "youtube.com/embed/") YouTube.alternatives
   /\ length (JS.lit "dQw4w9WgXcQ") = 11%nat
   /\ forallb YouTube.is_id_char (JS.lit "dQw4w9WgXcQ") = true)
  /\ YouTube.extractYouTubeId
       (JS.lit "https://www." ++ JS.lit "youtube.com/embed/"
          ++ JS.lit "dQw4w9WgXcQ" ++ JS.lit "?rel=0")
     = Some (JS.lit "dQw4w9WgXcQ").
Proof.
  assert (Hy : ~ In 121%N (JS.lit "https://www.")).
  { cbn. intros H. repeat (destruct H as [H|H]; [discriminate H|]). exact H. }
  assert (Hin : In (JS.lit "youtube.com/embed/") YouTube.alternatives).
  { cbn. auto. }
  split; [repeat split; assumption|].
  exact (link_id_found (JS.lit "https://www.") (JS.lit "youtube.com/embed/")
           (JS.lit "dQw4w9WgXcQ") (JS.lit "?rel=0") Hy Hin eq_refl eq_refl).
Defined.

(** ** Notes in local storage *)

Lemma sample_parse_stringify (notes : list Storage.Note) :
  SampleJSON.parse (SampleJSON.stringify notes) = Some notes.
Proof. unfold SampleJSON.parse, SampleJSON.stringify. apply decode_encode. Qed.

Lemma sample_stringify_nonempty (notes : list Storage.Note) :
  SampleJSON.stringify notes <> [].
Proof. discriminate. Qed.

Lemma filter_same_length {A} (P : A -> Prop) `{!forall x, Decision (P x)} (l : list A) :
  length (filter P l) = length l -> filter P l = l.
Proof.
  induction l as [|x l IH]; [reflexivity|].
  rewrite filter_cons. destruct (decide (P x)); cbn [length]; intros Hlen.
  - f_equal. apply IH. lia.
  - pose proof (length_filter P l). lia.
Qed.

Lemma list_find_insert_first {A} (P : A -> Prop) `{!forall x, Decision (P x)}
    (l : list A) (i : nat) (x y : A) :
  list_find P l = Some (i, x) -> P y ->
  list_find P (<[i := y]> l) = Some (i, y).
Proof.
  intros (Hi & _ & Hfirst)%list_find_Some Hy. apply list_find_Some.
  split; [|split; [exact Hy|]].
  - apply list_lookup_insert_eq. now apply lookup_lt_Some in Hi.
  - intros j z Hj Hlt. rewrite list_lookup_insert_ne in Hj by lia.
    now apply (Hfirst j).
Qed.

Section NotesFacts.

Variable JSON_parse : jsstring -> option (list Storage.Note).
Variable JSON_stringify : list Storage.Note -> jsstring.

Hypothesis parse_stringify :
  forall notes, JSON_parse (JSON_stringify notes) = Some notes.
Hypothesis stringify_nonempty : forall notes, JSON_stringify notes <> [].

Lemma saveNotes_healthy user notes d :
  Storage.failing d = false ->
  Storage.saveNotes JSON_stringify user notes d
  = {| Storage.items := <[Keys.getNotesKey user := JSON_stringify notes]> (Storage.items d);
       Storage.failing := false |}.
Proof. intros H. unfold Storage.saveNotes, Storage.setItem. now rewrite H. Qed.

Lemma saveNotes_failing user notes d :
  Storage.failing d = true -> Storage.saveNotes JSON_stringify user notes d = d.
Proof. intros H. unfold Storage.saveNotes, Storage.setItem. now rewrite H. Qed.

Lemma getNotes_failing user d :
  Storage.failing d = true -> Storage.getNotes JSON_parse user d = [].
Proof. intros H. unfold Storage.getNotes, Storage.getItem. now rewrite H. Qed.

Lemma getNotes_saveNotes user notes d :
  Storage.failing d = false ->
  Storage.getNotes JSON_parse user (Storage.saveNotes JSON_stringify user notes d)
  = notes.
Proof.
  intros H. rewrite (saveNotes_healthy _ _ _ H).
  unfold Storage.getNotes, Storage.getItem. cbn [Storage.failing Storage.items].
  rewrite lookup_insert_eq.
  pose proof (parse_stringify notes) as Hparse.
  pose proof (stringify_nonempty notes) as Hne.
  destruct (JSON_stringify notes); [contradiction|]. now rewrite Hparse.
Qed.

Lemma saveNotes_stays_healthy user notes d :
  Storage.failing d = false ->
  Storage.failing (Storage.saveNotes JSON_stringify user notes d) = false.
Proof. intros H. now rewrite (saveNotes_healthy _ _ _ H). Qed.

Lemma getNotes_other_user user other notes d :
  Keys.getNotesKey user <> Keys.getNotesKey other ->
  Storage.getNotes JSON_parse other (Storage.saveNotes JSON_stringify user notes d)
  = Storage.getNotes JSON_parse other d.
Proof.
  intros Hkeys. destruct (Storage.failing d) eqn:H.
  - now rewrite (saveNotes_failing _ _ _ H).
  - rewrite (saveNotes_healthy _ _ _ H).
    unfold Storage.getNotes, Storage.getItem. cbn [Storage.failing Storage.items].
    rewrite H. now rewrite lookup_insert_ne.
Qed.

(** X18: on a storage in working order, what [saveNotes] writes is what
    [getNotes] reads back for the same user, and the storage stays in
    working order. *)
Theorem notes_round_trip user notes d :
  Storage.failing d = false ->
  Storage.getNotes JSON_parse user (Storage.saveNotes JSON_stringify user notes d)
  = notes
  /\ Storage.failing (Storage.saveNotes JSON_stringify user notes d) = false.
Proof.
  intros H. split; [now apply getNotes_saveNotes | now apply saveNotes_stays_healthy].
Qed.

(** X19: [createNote] on a storage in working order puts the new note in
    front of the notes already there, and [getNote] finds it under its id;
    the new note carries the given title, content and url, is starred only
    if asked, and has its two dates equal. *)
Theorem created_note_is_stored user new_title new_content starred url iso ms random d :
  Storage.failing d = false ->
  let created :=
    Storage.createNote JSON_parse JSON_stringify user new_title new_content
      starred url iso ms random d in
  Storage.getNotes JSON_parse user (snd created)
  = fst created :: Storage.getNotes JSON_parse user d
  /\ Storage.getNote JSON_parse user (Storage.id (fst created)) (snd created)
     = Some (fst created)
  /\ Storage.title (fst created) = new_title
  /\ Storage.content (fst created) = new_content
  /\ Storage.youtubeUrl (fst created) = url
  /\ Storage.isStarred (fst created) = default false starred
  /\ Storage.createdAt (fst created) = iso
  /\ Storage.updatedAt (fst created) = iso.
Proof.
  intros H created. unfold created, Storage.createNote. cbn [fst snd].
  assert (Hread := getNotes_saveNotes user). unfold Storage.getNote.
  rewrite !Hread by exact H. repeat split.
  cbn [list_find]. now rewrite decide_True.
Qed.

(** X20: [createNote] on a storage that is out of order still returns a
    note, but nothing is written: the storage is unchanged and the note
    cannot be read back. *)
Theorem created_note_can_be_lost user new_title new_content starred url iso ms random d :
  Storage.failing d = true ->
  let created :=
    Storage.createNote JSON_parse JSON_stringify user new_title new_content
      starred url iso ms random d in
  snd created = d
  /\ Storage.title (fst created) = new_title
  /\ Storage.getNotes JSON_parse user (snd created) = []
  /\ Storage.getNote JSON_parse user (Storage.id (fst created)) (snd created) = None.
Proof.
  intros H created. unfold created, Storage.createNote, Storage.getNote.
  cbn [fst snd]. rewrite (saveNotes_failing _ _ _ H), (getNotes_failing _ _ H).
  now repeat split.
Qed.

(** X21: [deleteNote] on a storage in working order leaves exactly the
    notes with another id, in their order; it answers [true] exactly when
    some note had the id, and changes nothing when it answers [false];
    afterwards [getNote] finds nothing under the id. *)
Theorem deleted_note_is_gone user i d :
  Storage.failing d = false ->
  let deleted := Storage.deleteNote JSON_parse JSON_stringify user i d in
  Storage.getNotes JSON_parse user (snd deleted)
  = filter (fun note => Storage.id note <> i) (Storage.getNotes JSON_parse user d)
  /\ (fst deleted = true
      <-> exists note, note ∈ Storage.getNotes JSON_parse user d
                       /\ Storage.id note = i)
  /\ (fst deleted = false -> snd deleted = d)
  /\ Storage.getNote JSON_parse user i (snd deleted) = None.
Proof.
  intros H deleted. unfold deleted, Storage.deleteNote.
  set (notes := Storage.getNotes JSON_parse user d).
  set (kept := filter (fun note => Storage.id note <> i) notes).
  assert (Hread : Storage.getNotes JSON_parse user
                    (if (length kept =? length notes)%nat
                     then (false, d)
                     else (true, Storage.saveNotes JSON_stringify user kept d)).2
                  = kept).
  { destruct (Nat.eqb_spec (length kept) (length notes)) as [Hlen|_]; cbn [snd].
    - fold notes. symmetry. now apply filter_same_length.
    - now apply getNotes_saveNotes. }
  split; [exact Hread|]. split; [|split].
  - destruct (Nat.eqb_spec (length kept) (length notes)) as [Hlen|Hlen]; cbn [fst].
    + split; [discriminate|]. intros (note & Hin & Hid).
      apply filter_same_length in Hlen. fold kept in Hlen.
      rewrite <- Hlen in Hin. apply list_elem_of_filter in Hin as [Hne _].
      contradiction.
    + split; [|reflexivity]. intros _.
      destruct (decide (Exists (fun note => Storage.id note = i) notes))
        as [Hex|Hnone].
      * apply Exists_exists in Hex as (note & Hin & Hid). eauto.
      * exfalso. apply Hlen. unfold kept. f_equal.
        apply not_Exists_Forall in Hnone; [|intros note; apply _].
        clear -Hnone. induction Hnone as [|x l Hx _ IH]; [reflexivity|].
        rewrite filter_cons, decide_True by exact Hx. now f_equal.
  - destruct (length kept =? length notes)%nat; [reflexivity | discriminate].
  - unfold Storage.getNote. rewrite Hread.
    replace (list_find (fun note => Storage.id note = i) kept) with
      (@None (nat * Storage.Note)); [reflexivity|].
    symmetry. apply list_find_None, Forall_forall.
    intros note Hin. now apply list_elem_of_filter in Hin as [Hne _].
Qed.

(** X22: [updateNote] on a storage in working order, for an id that some
    note has, rewrites the first such note in place: the stored list is
    the old one with that note replaced, the note keeps its id and its
    creation date and takes the new [updatedAt], each of the eight other
    fields (title, content, star, video url, and the four fields of the
    last execution) keeps its value when the updates do not name it, and
    [getNote] returns the rewritten note. *)
Theorem updated_note_in_place user i updates iso d index note :
  Storage.failing d = false ->
  list_find (fun note => Storage.id note = i) (Storage.getNotes JSON_parse user d)
  = Some (index, note) ->
  let result := Storage.updateNote JSON_parse JSON_stringify user i updates iso d in
  fst result = Some (Storage.updated note updates iso)
  /\ Storage.getNotes JSON_parse user (snd result)
     = <[index := Storage.updated note updates iso]> (Storage.getNotes JSON_parse user d)
  /\ Storage.getNote JSON_parse user i (snd result)
     = Some (Storage.updated note updates iso)
  /\ Storage.id (Storage.updated note updates iso) = i
  /\ Storage.createdAt (Storage.updated note updates iso) = Storage.createdAt note
  /\ Storage.updatedAt (Storage.updated note updates iso) = iso
  /\ (Storage.new_title updates = None ->
      Storage.title (Storage.updated note updates iso) = Storage.title note)
  /\ (Storage.new_content updates = None ->
      Storage.content (Storage.updated note updates iso) = Storage.content note)
  /\ (Storage.new_isStarred updates = None ->
      Storage.isStarred (Storage.updated note updates iso) = Storage.isStarred note)
  /\ (Storage.new_youtubeUrl updates = None ->
      Storage.youtubeUrl (Storage.updated note updates iso) = Storage.youtubeUrl note)
  /\ (Storage.new_executionStatus updates = None ->
      Storage.executionStatus (Storage.updated note updates iso)
      = Storage.executionStatus note)
  /\ (Storage.new_executionOutput updates = None ->
      Storage.executionOutput (Storage.updated note updates iso)
      = Storage.executionOutput note)
  /\ (Storage.new_executionError updates = None ->
      Storage.executionError (Storage.updated note updates iso)
      = Storage.executionError note)
  /\ (Storage.new_executedAt updates = None ->
      Storage.executedAt (Storage.updated note updates iso)
      = Storage.executedAt note).
Proof.
  intros H Hfind result. unfold result, Storage.updateNote. rewrite Hfind.
  cbn [fst snd]. unfold Storage.getNote.
  rewrite (getNotes_saveNotes user _ d H).
  pose proof Hfind as (_ & Hid & _)%list_find_Some.
  rewrite (list_find_insert_first _ _ _ _ (Storage.updated note updates iso) Hfind)
    by exact Hid.
  repeat split; try exact Hid; cbn; now intros ->.
Qed.

(** X23: [updateNote] and [toggleNoteStar] for an id that no note has
    return [null] and leave the storage as it is. *)
Theorem absent_note_untouched user i updates iso d :
  Storage.getNote JSON_parse user i d = None ->
  Storage.updateNote JSON_parse JSON_stringify user i updates iso d = (None, d)
  /\ Storage.toggleNoteStar JSON_parse JSON_stringify user i iso d = (None, d).
Proof.
  unfold Storage.getNote, Storage.updateNote, Storage.toggleNoteStar.
  destruct (list_find _ _) as [[index note]|]; [discriminate | now split].
Qed.

(** X24: toggling the star of a note twice, on a storage in working
    order, gives back the stored notes as they were except for the
    [updatedAt] of that note, which is the date of the second toggle;
    after the first toggle the note has the opposite star. *)
Theorem star_toggled_twice user i iso1 iso2 d index note :
  Storage.failing d = false ->
  list_find (fun note => Storage.id note = i) (Storage.getNotes JSON_parse user d)
  = Some (index, note) ->
  let once := Storage.toggleNoteStar JSON_parse JSON_stringify user i iso1 d in
  let twice := Storage.toggleNoteStar JSON_parse JSON_stringify user i iso2 (snd once) in
  (exists note1, fst once = Some note1
                 /\ Storage.isStarred note1 = negb (Storage.isStarred note))
  /\ Storage.getNotes JSON_parse user (snd twice)
     = <[index := {| Storage.id := Storage.id note;
                     Storage.title := Storage.title note;
                     Storage.content := Storage.content note;
                     Storage.isStarred := Storage.isStarred note;
                     Storage.createdAt := Storage.createdAt note;
                     Storage.updatedAt := iso2;
                     Storage.youtubeUrl := Storage.youtubeUrl note;
                     Storage.executionStatus := Storage.executionStatus note;
                     Storage.executionOutput := Storage.executionOutput note;
                     Storage.executionError := Storage.executionError note;
                     Storage.executedAt := Storage.executedAt note |}]>
         (Storage.getNotes JSON_parse user d).
Proof.
  intros H Hfind once twice.
  pose proof Hfind as (_ & Hid & _)%list_find_Some.
  assert (Honce : once
                  = (Some (Storage.starred_toggled note iso1),
                     Storage.saveNotes JSON_stringify user
                       (<[index := Storage.starred_toggled note iso1]>
                          (Storage.getNotes JSON_parse user d)) d)).
  { unfold once, Storage.toggleNoteStar. now rewrite Hfind. }
  split; [rewrite Honce; eauto|].
  unfold twice. rewrite Honce. cbn [snd]. unfold Storage.toggleNoteStar.
  rewrite (getNotes_saveNotes user _ d H).
  rewrite (list_find_insert_first _ _ _ _ (Storage.starred_toggled note iso1) Hfind)
    by exact Hid.
  cbn [snd]. rewrite getNotes_saveNotes by now apply saveNotes_stays_healthy.
  rewrite list_insert_insert_eq. f_equal.
  unfold Storage.starred_toggled. cbn. now rewrite negb_involutive.
Qed.

(** The device after any of the calls that write notes is the device
    before it or the one [saveNotes] makes of it. *)
Lemma writes_through_saveNotes user d d' :
  (exists new_title new_content starred url iso ms random,
     d' = snd (Storage.createNote JSON_parse JSON_stringify user new_title
                 new_content starred url iso ms random d))
  \/ (exists i updates iso,
        d' = snd (Storage.updateNote JSON_parse JSON_stringify user i updates iso d))
  \/ (exists i, d' = snd (Storage.deleteNote JSON_parse JSON_stringify user i d))
  \/ (exists i iso,
        d' = snd (Storage.toggleNoteStar JSON_parse JSON_stringify user i iso d)) ->
  d' = d \/ exists notes, d' = Storage.saveNotes JSON_stringify user notes d.
Proof.
  intros [(t & c & s & u & iso & ms & r & ->)
         |[(i & up & iso & ->)|[(i & ->)|(i & iso & ->)]]].
  - right. eexists. reflexivity.
  - unfold Storage.updateNote.
    destruct (list_find _ _) as [[index note]|]; cbn [snd]; eauto.
  - unfold Storage.deleteNote.
    destruct (_ =? _)%nat; cbn [snd]; eauto.
  - unfold Storage.toggleNoteStar.
    destruct (list_find _ _) as [[index note]|]; cbn [snd]; eauto.
Qed.

Lemma notes_key_separates (u1 u2 : option jsstring) :
  u1 <> u2 -> (Keys.no_user u1 && Keys.no_user u2)%bool = false ->
  Keys.getNotesKey u1 <> Keys.getNotesKey u2.
Proof.
  intros Hne Hreal Heq. unfold Keys.getNotesKey in Heq.
  destruct u1 as [[|c1 s1]|], u2 as [[|c2 s2]|]; cbn in Hreal;
    try discriminate Hreal; cbn [Keys.no_user Keys.text] in Heq;
    try (cbn in Heq; discriminate Heq).
  apply app_inv_head, app_inv_tail in Heq. congruence.
Qed.

(** X25: creating, updating, deleting or starring a note as one user
    leaves what [getNotes] reads for any other user as it was, whether or
    not the storage is in working order ([null] and the empty string count
    as the same user, the one that is not signed in). *)
Theorem other_users_notes_untouched user other d d' :
  user <> other ->
  (Keys.no_user user && Keys.no_user other)%bool = false ->
  (exists new_title new_content starred url iso ms random,
     d' = snd (Storage.createNote JSON_parse JSON_stringify user new_title
                 new_content starred url iso ms random d))
  \/ (exists i updates iso,
        d' = snd (Storage.updateNote JSON_parse JSON_stringify user i updates iso d))
  \/ (exists i, d' = snd (Storage.deleteNote JSON_parse JSON_stringify user i d))
  \/ (exists i iso,
        d' = snd (Storage.toggleNoteStar JSON_parse JSON_stringify user i iso d)) ->
  Storage.getNotes JSON_parse other d' = Storage.getNotes JSON_parse other d.
Proof.
  intros Hne Huser Hcall.
  destruct (writes_through_saveNotes user d d' Hcall) as [->|[notes ->]];
    [reflexivity|].
  apply getNotes_other_user. now apply notes_key_separates.
Qed.

End NotesFacts.

Lemma notes_round_trip_witness :
  ((forall notes, SampleJSON.parse (SampleJSON.stringify notes) = Some notes)
   /\ (forall notes, SampleJSON.stringify notes <> [])
   /\ Storage.failing Sample.empty_device = false)
  /\ Storage.getNotes SampleJSON.parse Sample.user
       (Storage.saveNotes SampleJSON.stringify Sample.user [Sample.note]
          Sample.empty_device)
     = [Sample.note]
  /\ Storage.failing
       (Storage.saveNotes SampleJSON.stringify Sample.user [Sample.note]
          Sample.empty_device) = false.
Proof.
  split.
  - split; [exact sample_parse_stringify|].
    split; [exact sample_stringify_nonempty | reflexivity].
  - exact (notes_round_trip SampleJSON.parse SampleJSON.stringify
             sample_parse_stringify sample_stringify_nonempty
             Sample.user [Sample.note] Sample.empty_device eq_refl).
Defined.

Lemma created_note_is_stored_witness :
  ((forall notes, SampleJSON.parse (SampleJSON.stringify notes) = Some notes)
   /\ (forall notes, SampleJSON.stringify notes <> [])
   /\ Storage.failing Sample.device = false)
  /\ let created :=
       Storage.createNote SampleJSON.parse SampleJSON.stringify Sample.user
         (JS.lit "Todo") (JS.lit "call") None None
         (JS.lit "2024-02-02T10:00:00.000Z") 1706868000000 (JS.lit "k3j9x0q1z")
         Sample.device in
     Storage.getNotes SampleJSON.parse Sample.user (snd created)
     = fst created :: Storage.getNotes SampleJSON.parse Sample.user Sample.device
     /\ Storage.getNote SampleJSON.parse Sample.user (Storage.id (fst created))
          (snd created) = Some (fst created)
     /\ Storage.title (fst created) = JS.lit "Todo"
     /\ Storage.content (fst created) = JS.lit "call"
     /\ Storage.youtubeUrl (fst created) = None
     /\ Storage.isStarred (fst created) = default false None
     /\ Storage.createdAt (fst created) = JS.lit "2024-02-02T10:00:00.000Z"
     /\ Storage.updatedAt (fst created) = JS.lit "2024-02-02T10:00:00.000Z".
Proof.
  split.
  - split; [exact sample_parse_stringify|].
    split; [exact sample_stringify_nonempty | reflexivity].
  - exact (created_note_is_stored SampleJSON.parse SampleJSON.stringify
             sample_parse_stringify sample_stringify_nonempty
             Sample.user (JS.lit "Todo") (JS.lit "call") None None
             (JS.lit "2024-02-02T10:00:00.000Z") 1706868000000
             (JS.lit "k3j9x0q1z") Sample.device eq_refl).
Defined.

Lemma created_note_can_be_lost_witness :
  Storage.failing Sample.broken_device = true
  /\ let created :=
       Storage.createNote SampleJSON.parse SampleJSON.stringify Sample.user
         (JS.lit "Todo") (JS.lit "call") None None
         (JS.lit "2024-02-02T10:00:00.000Z") 1706868000000 (JS.lit "k3j9x0q1z")
         Sample.broken_device in
     snd created = Sample.broken_device
     /\ Storage.title (fst created) = JS.lit "Todo"
     /\ Storage.getNotes SampleJSON.parse Sample.user (snd created) = []
     /\ Storage.getNote SampleJSON.parse Sample.user (Storage.id (fst created))
          (snd created) = None.
Proof.
  split; [reflexivity|].
  exact (created_note_can_be_lost SampleJSON.parse SampleJSON.stringify
           Sample.user (JS.lit "Todo") (JS.lit "call") None None
           (JS.lit "2024-02-02T10:00:00.000Z") 1706868000000
           (JS.lit "k3j9x0q1z") Sample.broken_device eq_refl).
Defined.

Lemma deleted_note_is_gone_witness :
  ((forall notes, SampleJSON.parse (SampleJSON.stringify notes) = Some notes)
   /\ (forall notes, SampleJSON.stringify notes <> [])
   /\ Storage.failing Sample.device = false)
  /\ let deleted :=
       Storage.deleteNote SampleJSON.parse SampleJSON.stringify Sample.user
         (JS.lit "note_5_abc") Sample.device in
     Storage.getNotes SampleJSON.parse Sample.user (snd deleted)
     = filter (fun note => Storage.id note <> JS.lit "note_5_abc")
         (Storage.getNotes SampleJSON.parse Sample.user Sample.device)
     /\ (fst deleted = true
         <-> exists note,
               note ∈ Storage.getNotes SampleJSON.parse Sample.user Sample.device
               /\ Storage.id note = JS.lit "note_5_abc")
     /\ (fst deleted = false -> snd deleted = Sample.device)
     /\ Storage.getNote SampleJSON.parse Sample.user (JS.lit "note_5_abc")
          (snd deleted) = None.
Proof.
  split.
  - split; [exact sample_parse_stringify|].
    split; [exact sample_stringify_nonempty | reflexivity].
  - exact (deleted_note_is_gone SampleJSON.parse SampleJSON.stringify
             sample_parse_stringify sample_stringify_nonempty
             Sample.user (JS.lit "note_5_abc") Sample.device eq_refl).
Defined.

Lemma sample_note_found :
  list_find (fun note => Storage.id note = JS.lit "note_5_abc")
    (Storage.getNotes SampleJSON.parse Sample.user Sample.device)
  = Some (0%nat, Sample.note).
Proof. vm_compute. reflexivity. Defined.

Lemma updated_note_in_place_witness :
  ((forall notes, SampleJSON.parse (SampleJSON.stringify notes) = Some notes)
   /\ (forall notes, SampleJSON.stringify notes <> [])
   /\ Storage.failing Sample.device = false
   /\ list_find (fun note => Storage.id note = JS.lit "note_5_abc")
        (Storage.getNotes SampleJSON.parse Sample.user Sample.device)
      = Some (0%nat, Sample.note))
  /\ let result :=
       Storage.updateNote SampleJSON.parse SampleJSON.stringify Sample.user
         (JS.lit "note_5_abc") Sample.updates (JS.lit "2024-03-03T09:00:00.000Z")
         Sample.device in
     let note' :=
       Storage.updated Sample.note Sample.updates (JS.lit "2024-03-03T09:00:00.000Z") in
     fst result = Some note'
     /\ Storage.getNotes SampleJSON.parse Sample.user (snd result)
        = <[0%nat := note']>
            (Storage.getNotes SampleJSON.parse Sample.user Sample.device)
     /\ Storage.getNote SampleJSON.parse Sample.user (JS.lit "note_5_abc")
          (snd result) = Some note'
     /\ Storage.id note' = JS.lit "note_5_abc"
     /\ Storage.createdAt note' = Storage.createdAt Sample.note
     /\ Storage.updatedAt note' = JS.lit "2024-03-03T09:00:00.000Z"
     /\ (Storage.new_title Sample.updates = None ->
         Storage.title note' = Storage.title Sample.note)
     /\ (Storage.new_content Sample.updates = None ->
         Storage.content note' = Storage.content Sample.note)
     /\ (Storage.new_isStarred Sample.updates = None ->
         Storage.isStarred note' = Storage.isStarred Sample.note)
     /\ (Storage.new_youtubeUrl Sample.updates = None ->
         Storage.youtubeUrl note' = Storage.youtubeUrl Sample.note)
     /\ (Storage.new_executionStatus Sample.updates = None ->
         Storage.executionStatus note' = Storage.executionStatus Sample.note)
     /\ (Storage.new_executionOutput Sample.updates = None ->
         Storage.executionOutput note' = Storage.executionOutput Sample.note)
     /\ (Storage.new_executionError Sample.updates = None ->
         Storage.executionError note' = Storage.executionError Sample.note)
     /\ (Storage.new_executedAt Sample.updates = None ->
         Storage.executedAt note' = Storage.executedAt Sample.note).
Proof.
  split.
  - split; [exact sample_parse_stringify|].
    split; [exact sample_stringify_nonempty|].
    split; [reflexivity | exact sample_note_found].
  - exact (updated_note_in_place SampleJSON.parse SampleJSON.stringify
             sample_parse_stringify sample_stringify_nonempty
             Sample.user (JS.lit "note_5_abc") Sample.updates
             (JS.lit "2024-03-03T09:00:00.000Z") Sample.device 0%nat
             Sample.note eq_refl sample_note_found).
Defined.

Lemma absent_note_untouched_witness :
  Storage.getNote SampleJSON.parse Sample.user (JS.lit "note_9_zzz") Sample.device
  = None
  /\ Storage.updateNote SampleJSON.parse SampleJSON.stringify Sample.user
       (JS.lit "note_9_zzz") Sample.updates (JS.lit "2024-03-03T09:00:00.000Z")
       Sample.device
     = (None, Sample.device)
  /\ Storage.toggleNoteStar SampleJSON.parse SampleJSON.stringify Sample.user
       (JS.lit "note_9_zzz") (JS.lit "2024-03-03T09:00:00.000Z") Sample.device
     = (None, Sample.device).
Proof.
  assert (Habsent : Storage.getNote SampleJSON.parse Sample.user
                      (JS.lit "note_9_zzz") Sample.device = None)
    by (vm_compute; reflexivity).
  split; [exact Habsent|].
  exact (absent_note_untouched SampleJSON.parse SampleJSON.stringify Sample.user
           (JS.lit "note_9_zzz") Sample.updates (JS.lit "2024-03-03T09:00:00.000Z")
           Sample.device Habsent).
Defined.

Lemma star_toggled_twice_witness :
  ((forall notes, SampleJSON.parse (SampleJSON.stringify notes) = Some notes)
   /\ (forall notes, SampleJSON.stringify notes <> [])
   /\ Storage.failing Sample.device = false
   /\ list_find (fun note => Storage.id note = JS.lit "note_5_abc")
        (Storage.getNotes SampleJSON.parse Sample.user Sample.device)
      = Some (0%nat, Sample.note))
  /\ let once :=
       Storage.toggleNoteStar SampleJSON.parse SampleJSON.stringify Sample.user
         (JS.lit "note_5_abc") (JS.lit "2024-03-03T09:00:00.000Z") Sample.device in
     let twice :=
       Storage.toggleNoteStar SampleJSON.parse SampleJSON.stringify Sample.user
         (JS.lit "note_5_abc") (JS.lit "2024-03-03T09:00:05.000Z") (snd once) in
     (exists note1, fst once = Some note1
                    /\ Storage.isStarred note1 = negb (Storage.isStarred Sample.note))
     /\ Storage.getNotes SampleJSON.parse Sample.user (snd twice)
        = <[0%nat := {| Storage.id := Storage.id Sample.note;
                        Storage.title := Storage.title Sample.note;
                        Storage.content := Storage.content Sample.note;
                        Storage.isStarred := Storage.isStarred Sample.note;
                        Storage.createdAt := Storage.createdAt Sample.note;
                        Storage.updatedAt := JS.lit "2024-03-03T09:00:05.000Z";
                        Storage.youtubeUrl := Storage.youtubeUrl Sample.note;
                        Storage.executionStatus := Storage.executionStatus Sample.note;
                        Storage.executionOutput := Storage.executionOutput Sample.note;
                        Storage.executionError := Storage.executionError Sample.note;
                        Storage.executedAt := Storage.executedAt Sample.note |}]>
            (Storage.getNotes SampleJSON.parse Sample.user Sample.device).
Proof.
  split.
  - split; [exact sample_parse_stringify|].
    split; [exact sample_stringify_nonempty|].
    split; [reflexivity | exact sample_note_found].
  - exact (star_toggled_twice SampleJSON.parse SampleJSON.stringify
             sample_parse_stringify sample_stringify_nonempty
             Sample.user (JS.lit "note_5_abc")
             (JS.lit "2024-03-03T09:00:00.000Z")
             (JS.lit "2024-03-03T09:00:05.000Z") Sample.device 0%nat
             Sample.note eq_refl sample_note_found).
Defined.

Lemma other_users_notes_untouched_witness :
  (Sample.user <> Sample.other
   /\ (Keys.no_user Sample.user && Keys.no_user Sample.other)%bool = false)
  /\ Storage.getNotes SampleJSON.parse Sample.other
       (snd (Storage.deleteNote SampleJSON.parse SampleJSON.stringify Sample.user
               (JS.lit "note_5_abc") Sample.device))
     = Storage.getNotes SampleJSON.parse Sample.other Sample.device.
Proof.
  assert (Hne : Sample.user <> Sample.other) by discriminate.
  split; [split; [exact Hne | reflexivity]|].
  apply (other_users_notes_untouched SampleJSON.parse SampleJSON.stringify
           Sample.user Sample.other Sample.device _ Hne eq_refl).
  right. right. left. exists (JS.lit "note_5_abc"). reflexivity.
Defined.

(** ** The current user *)

(** X26: on a storage in working order, [setCurrentUserId] sets the
    module variable and stores the id, so that [initStorage] in a freshly
    loaded module finds the same user again; for [null] or the empty
    string the stored id is removed and the fresh module has no user.
    Once [initStorage] has run, running it again changes nothing, whatever
    the storage then holds. *)
Theorem current_user_survives_reload userId v d d2 :
  Storage.failing d = false ->
  let after := Storage.setCurrentUserId userId v d in
  Storage.getCurrentUserId (fst after) = userId
  /\ Storage.getCurrentUserId (Storage.initStorage Storage.loaded (snd after))
     = (if Keys.no_user userId then None else userId)
  /\ Storage.isStorageReady (Storage.initStorage Storage.loaded (snd after)) = true
  /\ Storage.initStorage (Storage.initStorage Storage.loaded (snd after)) d2
     = Storage.initStorage Storage.loaded (snd after).
Proof.
  intros H after. unfold after, Storage.setCurrentUserId, Storage.setItem,
    Storage.removeItem. rewrite H.
  destruct userId as [[|c u]|]; cbn [Keys.no_user Keys.text fst snd];
    unfold Storage.initStorage, Storage.getItem;
    cbn [Storage.loaded Storage.storageReady Storage.failing Storage.items
         Storage.currentUserId Storage.getCurrentUserId Storage.isStorageReady];
    rewrite ?lookup_delete_eq, ?lookup_insert_eq; cbn; now repeat split.
Qed.

Lemma current_user_survives_reload_witness :
  Storage.failing Sample.empty_device = false
  /\ let after :=
       Storage.setCurrentUserId Sample.user Storage.loaded Sample.empty_device in
     Storage.getCurrentUserId (fst after) = Sample.user
     /\ Storage.getCurrentUserId (Storage.initStorage Storage.loaded (snd after))
        = (if Keys.no_user Sample.user then None else Sample.user)
     /\ Storage.isStorageReady (Storage.initStorage Storage.loaded (snd after)) = true
     /\ Storage.initStorage (Storage.initStorage Storage.loaded (snd after))
          Sample.broken_device
        = Storage.initStorage Storage.loaded (snd after).
Proof.
  split; [reflexivity|].
  exact (current_user_survives_reload Sample.user Storage.loaded
           Sample.empty_device Sample.broken_device eq_refl).
Defined.

(** X27: on a storage that is out of order, [setCurrentUserId] still
    sets the module variable but stores nothing, and [initStorage] of a
    freshly loaded module ends ready with no user. *)
Theorem current_user_not_stored_when_failing userId v d :
  Storage.failing d = true ->
  Storage.setCurrentUserId userId v d
  = ({| Storage.currentUserId := userId;
        Storage.storageReady := Storage.storageReady v |}, d)
  /\ Storage.initStorage Storage.loaded d
     = {| Storage.currentUserId := None; Storage.storageReady := true |}.
Proof.
  intros H. unfold Storage.setCurrentUserId, Storage.initStorage,
    Storage.setItem, Storage.removeItem, Storage.getItem. rewrite H.
  split; [now destruct (Keys.no_user userId) | reflexivity].
Qed.

Lemma current_user_not_stored_when_failing_witness :
  Storage.failing Sample.broken_device = true
  /\ Storage.setCurrentUserId Sample.user Storage.loaded Sample.broken_device
     = ({| Storage.currentUserId := Sample.user;
           Storage.storageReady := Storage.storageReady Storage.loaded |},
        Sample.broken_device)
  /\ Storage.initStorage Storage.loaded Sample.broken_device
     = {| Storage.currentUserId := None; Storage.storageReady := true |}.
Proof.
  split; [reflexivity|].
  exact (current_user_not_stored_when_failing Sample.user Storage.loaded
           Sample.broken_device eq_refl).
Defined.

(** ** Settings in local storage *)

Lemma sample_settings_parse_stringify (s : SettingsStore.Settings) :
  SampleSettingsJSON.parse (SampleSettingsJSON.stringify s)
  = Some (SettingsStore.whole s).
Proof.
  unfold SampleSettingsJSON.parse, SampleSettingsJSON.stringify.
  now rewrite decode_encode.
Qed.

Lemma sample_settings_stringify_nonempty (s : SettingsStore.Settings) :
  SampleSettingsJSON.stringify s <> [].
Proof. discriminate. Qed.

Lemma spread_whole (base s : SettingsStore.Settings) :
  SettingsStore.spread base (SettingsStore.whole s) = s.
Proof. now destruct s. Qed.

Lemma settings_key_separates (u1 u2 : option jsstring) :
  u1 <> u2 -> (Keys.no_user u1 && Keys.no_user u2)%bool = false ->
  Keys.getSettingsKey u1 <> Keys.getSettingsKey u2.
Proof.
  intros Hne Hreal Heq. unfold Keys.getSettingsKey in Heq.
  destruct u1 as [[|c1 s1]|], u2 as [[|c2 s2]|]; cbn in Hreal;
    try discriminate Hreal; cbn [Keys.no_user Keys.text] in Heq;
    try (cbn in Heq; discriminate Heq).
  apply app_inv_head, app_inv_tail in Heq. congruence.
Qed.

Section SettingsFacts.

Variable JSON_parse : jsstring -> option SettingsStore.PartialSettings.
Variable JSON_stringify : SettingsStore.Settings -> jsstring.

Hypothesis parse_stringify :
  forall s, JSON_parse (JSON_stringify s) = Some (SettingsStore.whole s).
Hypothesis stringify_nonempty : forall s, JSON_stringify s <> [].

(** X28: [saveSettings] on a storage in working order returns the
    current settings with the named keys replaced, and [getSettings] then
    reads exactly that; a key that the change does not name keeps the value
    [getSettings] gave before. *)
Theorem settings_saved_are_read_back user changes d :
  Storage.failing d = false ->
  let before := SettingsStore.getSettings JSON_parse user d in
  let saved := SettingsStore.saveSettings JSON_parse JSON_stringify user changes d in
  fst saved = SettingsStore.spread before changes
  /\ SettingsStore.getSettings JSON_parse user (snd saved) = fst saved
  /\ (SettingsStore.with_displayName changes = None ->
      SettingsStore.displayName (fst saved) = SettingsStore.displayName before)
  /\ (SettingsStore.with_theme changes = None ->
      SettingsStore.theme (fst saved) = SettingsStore.theme before)
  /\ (SettingsStore.with_fontSize changes = None ->
      SettingsStore.fontSize (fst saved) = SettingsStore.fontSize before)
  /\ (SettingsStore.with_autoSave changes = None ->
      SettingsStore.autoSave (fst saved) = SettingsStore.autoSave before)
  /\ (SettingsStore.with_executionTimeout changes = None ->
      SettingsStore.executionTimeout (fst saved)
      = SettingsStore.executionTimeout before).
Proof.
  intros H before saved. unfold saved, SettingsStore.saveSettings, Storage.setItem.
  rewrite H. cbn [fst snd]. fold before.
  split; [reflexivity|]. split.
  - unfold SettingsStore.getSettings at 1, Storage.getItem.
    cbn [Storage.failing Storage.items]. rewrite lookup_insert_eq.
    pose proof (parse_stringify (SettingsStore.spread before changes)) as Hparse.
    pose proof (stringify_nonempty (SettingsStore.spread before changes)) as Hne.
    destruct (JSON_stringify (SettingsStore.spread before changes));
      [contradiction|].
    rewrite Hparse. apply spread_whole.
  - unfold SettingsStore.spread. cbn. repeat split; now intros ->.
Qed.

(** X29: on a storage that is out of order, [getSettings] gives the
    default settings, and [saveSettings] stores nothing and returns the
    default settings too, not the settings it was asked to save. *)
Theorem settings_default_on_failure user changes d :
  Storage.failing d = true ->
  SettingsStore.getSettings JSON_parse user d = SettingsStore.defaultSettings
  /\ SettingsStore.saveSettings JSON_parse JSON_stringify user changes d
     = (SettingsStore.defaultSettings, d).
Proof.
  intros H. unfold SettingsStore.saveSettings, SettingsStore.getSettings,
    Storage.setItem, Storage.getItem. now rewrite H.
Qed.

(** X30: [clearAllData] on a storage in working order leaves the user
    with no notes and the default settings, keeps the stored id of the
    current user, and leaves the notes and settings of every other user as
    they were. *)
Theorem clear_all_data_is_per_user
    (parse_notes : jsstring -> option (list Storage.Note)) user d :
  Storage.failing d = false ->
  Storage.getNotes parse_notes user (SettingsStore.clearAllData user d) = []
  /\ SettingsStore.getSettings JSON_parse user (SettingsStore.clearAllData user d)
     = SettingsStore.defaultSettings
  /\ Storage.items (SettingsStore.clearAllData user d) !! Keys.CURRENT_USER_KEY
     = Storage.items d !! Keys.CURRENT_USER_KEY
  /\ forall other,
       user <> other ->
       (Keys.no_user user && Keys.no_user other)%bool = false ->
       Storage.getNotes parse_notes other (SettingsStore.clearAllData user d)
       = Storage.getNotes parse_notes other d
       /\ SettingsStore.getSettings JSON_parse other (SettingsStore.clearAllData user d)
          = SettingsStore.getSettings JSON_parse other d.
Proof.
  intros H. unfold SettingsStore.clearAllData. rewrite H.
  unfold Storage.getNotes, SettingsStore.getSettings, Storage.getItem.
  cbn [Storage.failing Storage.items]. rewrite H.
  destruct (key_kinds_apart user user) as (Hns & _ & _ & Hnc & Hsc & _).
  repeat split.
  - rewrite lookup_delete_ne by (intros Heq; now apply Hns).
    now rewrite lookup_delete_eq.
  - now rewrite lookup_delete_eq.
  - now rewrite !lookup_delete_ne by (intros Heq; congruence).
  - destruct (key_kinds_apart other user) as (Hos & _).
    rewrite lookup_delete_ne by (intros Heq; now apply Hos).
    rewrite lookup_delete_ne; [reflexivity|].
    now apply notes_key_separates.
  - destruct (key_kinds_apart user other) as (Hso & _).
    rewrite lookup_delete_ne by now apply settings_key_separates.
    rewrite lookup_delete_ne; [reflexivity|]. exact Hso.
Qed.

End SettingsFacts.

Lemma settings_saved_are_read_back_witness :
  ((forall s, SampleSettingsJSON.parse (SampleSettingsJSON.stringify s)
              = Some (SettingsStore.whole s))
   /\ (forall s, SampleSettingsJSON.stringify s <> [])
   /\ Storage.failing Sample.empty_device = false)
  /\ let before :=
       SettingsStore.getSettings SampleSettingsJSON.parse Sample.user
         Sample.empty_device in
     let saved :=
       SettingsStore.saveSettings SampleSettingsJSON.parse
         SampleSettingsJSON.stringify Sample.user Sample.dark_theme
         Sample.empty_device in
     fst saved = SettingsStore.spread before Sample.dark_theme
     /\ SettingsStore.getSettings SampleSettingsJSON.parse Sample.user (snd saved)
        = fst saved
     /\ (SettingsStore.with_displayName Sample.dark_theme = None ->
         SettingsStore.displayName (fst saved) = SettingsStore.displayName before)
     /\ (SettingsStore.with_theme Sample.dark_theme = None ->
         SettingsStore.theme (fst saved) = SettingsStore.theme before)
     /\ (SettingsStore.with_fontSize Sample.dark_theme = None ->
         SettingsStore.fontSize (fst saved) = SettingsStore.fontSize before)
     /\ (SettingsStore.with_autoSave Sample.dark_theme = None ->
         SettingsStore.autoSave (fst saved) = SettingsStore.autoSave before)
     /\ (SettingsStore.with_executionTimeout Sample.dark_theme = None ->
         SettingsStore.executionTimeout (fst saved)
         = SettingsStore.executionTimeout before).
Proof.
  split.
  - split; [exact sample_settings_parse_stringify|].
    split; [exact sample_settings_stringify_nonempty | reflexivity].
  - exact (settings_saved_are_read_back SampleSettingsJSON.parse
             SampleSettingsJSON.stringify sample_settings_parse_stringify
             sample_settings_stringify_nonempty Sample.user Sample.dark_theme
             Sample.empty_device eq_refl).
Defined.

Lemma settings_default_on_failure_witness :
  Storage.failing Sample.broken_device = true
  /\ SettingsStore.getSettings SampleSettingsJSON.parse Sample.user
       Sample.broken_device = SettingsStore.defaultSettings
  /\ SettingsStore.saveSettings SampleSettingsJSON.parse
       SampleSettingsJSON.stringify Sample.user Sample.dark_theme
       Sample.broken_device
     = (SettingsStore.defaultSettings, Sample.broken_device).
Proof.
  split; [reflexivity|].
  exact (settings_default_on_failure SampleSettingsJSON.parse
           SampleSettingsJSON.stringify Sample.user Sample.dark_theme
           Sample.broken_device eq_refl).
Defined.

Lemma clear_all_data_is_per_user_witness :
  Storage.failing Sample.device = false
  /\ Storage.getNotes SampleJSON.parse Sample.user
       (SettingsStore.clearAllData Sample.user Sample.device) = []
  /\ SettingsStore.getSettings SampleSettingsJSON.parse Sample.user
       (SettingsStore.clearAllData Sample.user Sample.device)
     = SettingsStore.defaultSettings
  /\ Storage.items (SettingsStore.clearAllData Sample.user Sample.device)
       !! Keys.CURRENT_USER_KEY
     = Storage.items Sample.device !! Keys.CURRENT_USER_KEY
  /\ forall other,
       Sample.user <> other ->
       (Keys.no_user Sample.user && Keys.no_user other)%bool = false ->
       Storage.getNotes SampleJSON.parse other
         (SettingsStore.clearAllData Sample.user Sample.device)
       = Storage.getNotes SampleJSON.parse other Sample.device
       /\ SettingsStore.getSettings SampleSettingsJSON.parse other
            (SettingsStore.clearAllData Sample.user Sample.device)
          = SettingsStore.getSettings SampleSettingsJSON.parse other Sample.device.
Proof.
  split; [reflexivity|].
  exact (clear_all_data_is_per_user SampleSettingsJSON.parse SampleJSON.parse
           Sample.user Sample.device eq_refl).
Defined.
